(** * Mandelbrot_Fractal-PL: the iteration engine and the palette engine

    A shallow embedding of [fractal_engine.py] and [color_palette.py].

    Number model.  Python [int] is [Z].  Python [float] and NumPy [float64]
    are idealised as the real numbers [R]: rounding is not modelled, and
    the statements about the view are orderings, ranges and tolerances,
    which do not depend on it.  In the methods of the engine a computation
    that would produce an infinity or a NaN leaves the model through
    [FloatingPointError].  The compiled kernels raise nothing: in
    [mandelbrot_calculation] a coordinate that is not a number is carried
    into the loop of its pixel, and [smooth_coloring] returns a [float64]
    that may be an infinity or NaN.  The [int32] cells of the result array
    keep their wrap-around.  Exceptions are values of [exn]; a method that
    mutates [self] is a function of the state monad [M], in which the
    state survives a raised exception as it does in Python.  [print] calls
    are left out. *)

From Stdlib Require Import Reals Lra Lia ZArith List Bool.
From stdpp Require Import gmap.
Import ListNotations.

Open Scope R_scope.

(** ** Exceptions and results *)

Inductive exn : Type :=
| ZeroDivisionError
| ValueError
| FloatingPointError.

Inductive res (A : Type) : Type :=
| Ok (a : A)
| Raise (e : exn).

Arguments Ok {A} a.
Arguments Raise {A} e.

#[global] Instance res_bind : MBind res := fun A B k r =>
  match r with
  | Ok a => k a
  | Raise e => Raise e
  end.

(** [for x in xs: ...] collecting one value per element; the first
    exception stops the loop. *)
Fixpoint for_each {A B : Type} (f : A -> res B) (xs : list A) : res (list B) :=
  match xs with
  | [] => Ok []
  | x :: xs' =>
      (y ← f x;
       ys ← for_each f xs';
       Ok (y :: ys))
  end.

(** ** Numbers *)

Definition Rltb (x y : R) : bool := if Rlt_dec x y then true else false.
Definition Rgtb (x y : R) : bool := if Rgt_dec x y then true else false.
Definition Reqb (x y : R) : bool := if Req_dec_T x y then true else false.

(** [a / b] on Python floats: a zero divisor raises. *)
Definition fdiv (a b : R) : res R :=
  if Req_dec_T b 0 then Raise ZeroDivisionError else Ok (a / b).

(** [int(x)]: truncation towards zero. *)
Definition py_int (x : R) : Z :=
  if Rle_dec 0 x then Int_part x else (- Int_part (- x))%Z.

(** [x % 1.0]: the result takes the sign of the divisor. *)
Definition fmod1 (x : R) : R := frac_part x.

(** [np.log10]: zero gives [-inf] and a negative argument gives [nan]. *)
Definition np_log10 (x : R) : res R :=
  if Rlt_dec 0 x then Ok (ln x / ln 10) else Raise FloatingPointError.

(** A store into an [np.int32] cell keeps the low 32 bits. *)
Definition int32 (v : Z) : Z := ((v + 2 ^ 31) mod 2 ^ 32 - 2 ^ 31)%Z.

(** [range(n)] *)
Definition range (n : Z) : list Z := map Z.of_nat (seq 0 (Z.to_nat n)).

(** ** Complex numbers *)

Definition complex : Type := (R * R)%type.

Definition Cadd (a b : complex) : complex := (fst a + fst b, snd a + snd b).

Definition Cmul (a b : complex) : complex :=
  (fst a * fst b - snd a * snd b, fst a * snd b + snd a * fst b).

Definition Cabs (z : complex) : R := sqrt (fst z * fst z + snd z * snd z).

(** ** [mandelbrot_calculation] *)

(** How the [for n in range(max_iter)] loop of one pixel ends: at the
    divergence [break] with the index [n], at the periodicity [break], or
    in the [else] branch of the loop. *)
Inductive loop_exit : Type :=
| Diverged (n : Z)
| Periodic
| Completed.

Fixpoint iterate (fuel : nat) (n : Z) (z c : complex) : loop_exit :=
  match fuel with
  | O => Completed
  | S fuel' =>
      if Rgtb (Cabs z) 2 then Diverged n
      else
        let z' := Cadd (Cmul z z) c in
        if (20 <? n)%Z && Rltb (Cabs z') 1e-10 then Periodic
        else iterate fuel' (n + 1)%Z z' c
  end.

(** The value assigned to [result[i, j]]. *)
Definition assigned (max_iter : Z) (x : loop_exit) : Z :=
  match x with
  | Diverged n => n
  | Periodic => max_iter
  | Completed => max_iter
  end.

Definition escape_count (max_iter : Z) (c : complex) : Z :=
  int32 (assigned max_iter (iterate (Z.to_nat max_iter) 0%Z (0, 0) c)).

(** [lo + (hi - lo) * k / (n - 1)] for an index [k] of [range(n)].  The
    parallel kernel raises nothing on a zero divisor: with [n = 1] the only
    index is [k = 0], the quotient is [0 / 0] and the coordinate is NaN.
    Here [Ok] carries a coordinate that is a real number and
    [Raise FloatingPointError] stands for the NaN, which is a value of the
    kernel and not an exception of the call. *)
Definition pixel_to_plane (lo hi : R) (k n : Z) : res R :=
  if Req_dec_T (IZR (n - 1)) 0 then Raise FloatingPointError
  else Ok (lo + (hi - lo) * IZR k / IZR (n - 1)).

(** [complex(x, y)]: not a number as soon as one part is. *)
Definition pixel_point (height width : Z) (x_min x_max y_min y_max : R)
    (i j : Z) : res complex :=
  (x ← pixel_to_plane x_min x_max j width;
   y ← pixel_to_plane y_min y_max i height;
   Ok (x, y)).

(** The same loop for a coordinate [c] that is NaN.  [z] is a number
    ([Some]) until the first update [z = z * z + c] and NaN ([None]) from
    then on; a comparison with NaN is false. *)
Fixpoint iterate_nan (fuel : nat) (n : Z) (z : option complex) : loop_exit :=
  match fuel with
  | O => Completed
  | S fuel' =>
      let diverged :=
        match z with
        | Some z => Rgtb (Cabs z) 2
        | None => false
        end in
      if diverged then Diverged n
      else
        let z' : option complex := None in
        let tiny :=
          match z' with
          | Some z' => Rltb (Cabs z') 1e-10
          | None => false
          end in
        if (20 <? n)%Z && tiny then Periodic
        else iterate_nan fuel' (n + 1)%Z z'
  end.

(** How the loop of one pixel ends. *)
Definition pixel_exit (max_iter : Z) (c : res complex) : loop_exit :=
  match c with
  | Ok c => iterate (Z.to_nat max_iter) 0%Z (0, 0) c
  | Raise _ => iterate_nan (Z.to_nat max_iter) 0%Z (Some (0, 0))
  end.

(** The value stored into [result[i, j]]. *)
Definition pixel_value (max_iter : Z) (c : res complex) : Z :=
  int32 (assigned max_iter (pixel_exit max_iter c)).

Definition grid : Type := list (list Z).

(** [np.zeros] refuses a negative dimension; the loops themselves raise
    nothing. *)
Definition mandelbrot_calculation (height width : Z)
    (x_min x_max y_min y_max : R) (max_iter : Z) : res grid :=
  if ((height <? 0) || (width <? 0))%Z then Raise ValueError
  else
    for_each (fun i =>
      for_each (fun j =>
        Ok (pixel_value max_iter
              (pixel_point height width x_min x_max y_min y_max i j)))
        (range width))
      (range height).

(** [result[i, j]] for indices that are not negative *)
Definition cell (g : grid) (i j : Z) : option Z :=
  match nth_error g (Z.to_nat i) with
  | Some row => nth_error row (Z.to_nat j)
  | None => None
  end.

(** ** Methods that mutate [self] *)

Definition M (S A : Type) : Type := S -> res A * S.

#[global] Instance M_ret {S : Type} : MRet (M S) := fun A a s => (Ok a, s).

#[global] Instance M_bind {S : Type} : MBind (M S) := fun A B k m s =>
  match m s with
  | (Ok a, s') => k a s'
  | (Raise e, s') => (Raise e, s')
  end.

Definition get {S : Type} : M S S := fun s => (Ok s, s).
Definition modify {S : Type} (f : S -> S) : M S unit := fun s => (Ok tt, f s).
Definition lift {S A : Type} (r : res A) : M S A := fun s => (r, s).

#[global] Instance R_eq_dec : EqDecision R := Req_dec_T.

(** ** [MandelbrotEngine] *)

(** [(x_center, y_center, zoom, width, height, max_iter)] *)
Definition render_params : Type := (R * R * R * Z * Z * Z)%type.

Record MandelbrotEngine : Type := mkEngine {
  width : Z;
  height : Z;
  x_center : R;
  y_center : R;
  zoom : R;
  aspect_ratio : R;
  max_iter : Z;
  min_iter : Z;
  max_max_iter : Z;
  last_params : option render_params;
  cached_result : option grid;
  render_count : Z;
  total_pixels : Z
}.

Definition set_width (v : Z) (e : MandelbrotEngine) : MandelbrotEngine :=
  mkEngine v (height e) (x_center e) (y_center e) (zoom e) (aspect_ratio e)
    (max_iter e) (min_iter e) (max_max_iter e) (last_params e)
    (cached_result e) (render_count e) (total_pixels e).

Definition set_height (v : Z) (e : MandelbrotEngine) : MandelbrotEngine :=
  mkEngine (width e) v (x_center e) (y_center e) (zoom e) (aspect_ratio e)
    (max_iter e) (min_iter e) (max_max_iter e) (last_params e)
    (cached_result e) (render_count e) (total_pixels e).

Definition set_x_center (v : R) (e : MandelbrotEngine) : MandelbrotEngine :=
  mkEngine (width e) (height e) v (y_center e) (zoom e) (aspect_ratio e)
    (max_iter e) (min_iter e) (max_max_iter e) (last_params e)
    (cached_result e) (render_count e) (total_pixels e).

Definition set_y_center (v : R) (e : MandelbrotEngine) : MandelbrotEngine :=
  mkEngine (width e) (height e) (x_center e) v (zoom e) (aspect_ratio e)
    (max_iter e) (min_iter e) (max_max_iter e) (last_params e)
    (cached_result e) (render_count e) (total_pixels e).

Definition set_zoom (v : R) (e : MandelbrotEngine) : MandelbrotEngine :=
  mkEngine (width e) (height e) (x_center e) (y_center e) v (aspect_ratio e)
    (max_iter e) (min_iter e) (max_max_iter e) (last_params e)
    (cached_result e) (render_count e) (total_pixels e).

Definition set_aspect_ratio (v : R) (e : MandelbrotEngine) : MandelbrotEngine :=
  mkEngine (width e) (height e) (x_center e) (y_center e) (zoom e) v
    (max_iter e) (min_iter e) (max_max_iter e) (last_params e)
    (cached_result e) (render_count e) (total_pixels e).

Definition set_max_iter (v : Z) (e : MandelbrotEngine) : MandelbrotEngine :=
  mkEngine (width e) (height e) (x_center e) (y_center e) (zoom e)
    (aspect_ratio e) v (min_iter e) (max_max_iter e) (last_params e)
    (cached_result e) (render_count e) (total_pixels e).

(** [self.last_params = p; self.cached_result = g] *)
Definition set_cache (p : option render_params) (g : option grid)
    (e : MandelbrotEngine) : MandelbrotEngine :=
  mkEngine (width e) (height e) (x_center e) (y_center e) (zoom e)
    (aspect_ratio e) (max_iter e) (min_iter e) (max_max_iter e) p g
    (render_count e) (total_pixels e).

Definition set_render_count (v : Z) (e : MandelbrotEngine) : MandelbrotEngine :=
  mkEngine (width e) (height e) (x_center e) (y_center e) (zoom e)
    (aspect_ratio e) (max_iter e) (min_iter e) (max_max_iter e)
    (last_params e) (cached_result e) v (total_pixels e).

Definition set_total_pixels (v : Z) (e : MandelbrotEngine) : MandelbrotEngine :=
  mkEngine (width e) (height e) (x_center e) (y_center e) (zoom e)
    (aspect_ratio e) (max_iter e) (min_iter e) (max_max_iter e)
    (last_params e) (cached_result e) (render_count e) v.

(** [MandelbrotEngine(width, height)] *)
Definition engine_init (w h : Z) : res MandelbrotEngine :=
  a ← fdiv (IZR w) (IZR h);
  Ok {| width := w; height := h;
        x_center := -0.5; y_center := 0; zoom := 1; aspect_ratio := a;
        max_iter := 100; min_iter := 50; max_max_iter := 2000;
        last_params := None; cached_result := None;
        render_count := 0; total_pixels := w * h |}.

Definition get_bounds (self : MandelbrotEngine) : res (R * R * R * R) :=
  view_width ← fdiv 3 (zoom self);
  view_height ← fdiv view_width (aspect_ratio self);
  Ok (x_center self - view_width / 2, x_center self + view_width / 2,
      y_center self - view_height / 2, y_center self + view_height / 2).

Definition adaptive_iterations (self : MandelbrotEngine) (zoom : R) : res Z :=
  l ← np_log10 (zoom + 1);
  let iter_count := py_int (IZR (min_iter self) + l * 30) in
  Ok (Z.min iter_count (max_max_iter self)).

Definition current_params (self : MandelbrotEngine) : render_params :=
  (x_center self, y_center self, zoom self,
   width self, height self, max_iter self).

(** [current_params == self.last_params and self.cached_result is not None] *)
Definition cache_hit (self : MandelbrotEngine) : option grid :=
  if decide (Some (current_params self) = last_params self)
  then cached_result self
  else None.

Definition generate : M MandelbrotEngine grid :=
  self ← get;
  match cache_hit self with
  | Some held => mret held
  | None =>
      '(x_min, x_max, y_min, y_max) ← lift (get_bounds self);
      adaptive_iter ← lift (adaptive_iterations self (zoom self));
      let actual_iter := Z.min (max_iter self) adaptive_iter in
      result ← lift (mandelbrot_calculation (height self) (width self)
                       x_min x_max y_min y_max actual_iter);
      modify (set_cache (Some (current_params self)) (Some result));;
      modify (set_render_count (render_count self + 1));;
      mret result
  end.

(** The closing test on [np.log10] only decides whether a line is
    printed. *)
Definition zoom_at_point (screen_x screen_y : Z) (zoom_factor : R)
    : M MandelbrotEngine unit :=
  self ← get;
  '(x_min, x_max, y_min, y_max) ← lift (get_bounds self);
  dx ← lift (fdiv ((x_max - x_min) * IZR screen_x) (IZR (width self)));
  dy ← lift (fdiv ((y_max - y_min) * IZR screen_y) (IZR (height self)));
  let math_x := x_min + dx in
  let math_y := y_min + dy in
  modify (set_x_center math_x);;
  modify (set_y_center math_y);;
  let zoomed := zoom self * zoom_factor in
  let max_zoom := 1e15 in
  let capped := if Rgtb zoomed max_zoom then max_zoom else zoomed in
  let floored := if Rltb capped 0.1 then 0.1 else capped in
  modify (set_zoom floored).

Definition pan (dx dy : Z) : M MandelbrotEngine unit :=
  self ← get;
  '(x_min, x_max, y_min, y_max) ← lift (get_bounds self);
  pixel_width ← lift (fdiv (x_max - x_min) (IZR (width self)));
  pixel_height ← lift (fdiv (y_max - y_min) (IZR (height self)));
  modify (set_x_center (x_center self + IZR dx * pixel_width));;
  modify (set_y_center (y_center self + IZR dy * pixel_height)).

Definition reset_view : M MandelbrotEngine unit :=
  modify (set_x_center (-0.5));;
  modify (set_y_center 0);;
  modify (set_zoom 1);;
  modify (set_max_iter 100);;
  modify (set_cache None None).

Definition resize (w h : Z) : M MandelbrotEngine unit :=
  modify (set_width w);;
  modify (set_height h);;
  a ← lift (fdiv (IZR w) (IZR h));
  modify (set_aspect_ratio a);;
  modify (set_total_pixels (w * h));;
  modify (set_cache None None).

Definition increase_iterations (factor : Z) : M MandelbrotEngine unit :=
  self ← get;
  modify (set_max_iter (Z.min (max_iter self + factor) (max_max_iter self)));;
  modify (set_cache None None).

Definition decrease_iterations (factor : Z) : M MandelbrotEngine unit :=
  self ← get;
  modify (set_max_iter (Z.max (max_iter self - factor) (min_iter self)));;
  modify (set_cache None None).

(** The navigation commands a caller can issue. *)
Inductive command : Type :=
| ZoomAtPoint (screen_x screen_y : Z) (zoom_factor : R)
| Pan (dx dy : Z)
| ResetView
| Resize (w h : Z)
| IncreaseIterations (factor : Z)
| DecreaseIterations (factor : Z).

Definition run (c : command) : M MandelbrotEngine unit :=
  match c with
  | ZoomAtPoint x y k => zoom_at_point x y k
  | Pan dx dy => pan dx dy
  | ResetView => reset_view
  | Resize w h => resize w h
  | IncreaseIterations f => increase_iterations f
  | DecreaseIterations f => decrease_iterations f
  end.

(** The engine after a sequence of commands; a command that raises leaves
    the state it had reached. *)
Definition run_all (cs : list command) (e : MandelbrotEngine)
    : MandelbrotEngine :=
  fold_left (fun s c => snd (run c s)) cs e.

(** ** [ColorPalette] *)

Inductive PaletteType : Type :=
| RAINBOW | OCEAN | FIRE | ELECTRIC | COSMIC
| VINTAGE | NEON | ICE | SUNSET | MATRIX.

(** [list(PaletteType)] *)
Definition palettes : list PaletteType :=
  [RAINBOW; OCEAN; FIRE; ELECTRIC; COSMIC; VINTAGE; NEON; ICE; SUNSET; MATRIX].

Abbreviation rgb := (Z * Z * Z)%type.

Record ColorPalette : Type := mkPalette {
  current_palette_index : nat;
  current_palette : PaletteType;
  color_cache : gmap (Z * Z * nat * Z) (Z * Z * Z);
  cache_size : nat;
  animation_time : R;
  animation_speed : R
}.

Definition set_color_cache (c : gmap (Z * Z * nat * Z) (Z * Z * Z))
    (p : ColorPalette) : ColorPalette :=
  mkPalette (current_palette_index p) (current_palette p) c (cache_size p)
    (animation_time p) (animation_speed p).

Definition set_palette (i : nat) (k : PaletteType) (p : ColorPalette)
    : ColorPalette :=
  mkPalette i k (color_cache p) (cache_size p)
    (animation_time p) (animation_speed p).

(** [ColorPalette()] *)
Definition palette_init : ColorPalette :=
  {| current_palette_index := 0;
     current_palette := nth 0 palettes RAINBOW;
     color_cache := ∅;
     cache_size := 1000;
     animation_time := 0;
     animation_speed := 0.02 |}.

Definition next_palette : M ColorPalette unit :=
  self ← get;
  let i := ((current_palette_index self + 1) mod length palettes)%nat in
  modify (set_palette i (nth i palettes RAINBOW));;
  modify (set_color_cache ∅).

(** [max(0, min(255, v))] *)
Definition clamp_channel (v : Z) : Z := Z.max 0 (Z.min 255 v).

(** [colorsys.hsv_to_rgb] of the Python standard library, which
    [color_palette.py] imports. *)
Definition colorsys_hsv_to_rgb (h s v : R) : R * R * R :=
  if Reqb s 0 then (v, v, v)
  else
    let i := py_int (h * 6) in
    let f := h * 6 - IZR i in
    let p := v * (1 - s) in
    let q := v * (1 - s * f) in
    let t := v * (1 - s * (1 - f)) in
    let i := (i mod 6)%Z in
    if (i =? 0)%Z then (v, t, p)
    else if (i =? 1)%Z then (q, v, p)
    else if (i =? 2)%Z then (p, v, t)
    else if (i =? 3)%Z then (p, q, v)
    else if (i =? 4)%Z then (t, p, v)
    else (v, p, q).

Definition hsv_to_rgb (h s v : R) : rgb :=
  let '(r, g, b) := colorsys_hsv_to_rgb h s v in
  (py_int (r * 255), py_int (g * 255), py_int (b * 255)).

Section Palettes.

Variable self : ColorPalette.

Definition rainbow_color (t intensity : R) : rgb :=
  let hue := fmod1 (t * 6 + animation_time self) in
  let saturation := 0.8 + 0.2 * sin (t * PI * 4 + animation_time self * 2) in
  let value := intensity * (0.5 + 0.5 * sin (t * PI * 2)) in
  hsv_to_rgb hue saturation value.

Definition ocean_color (t intensity : R) : rgb :=
  let '(red, green, blue) :=
    if Rltb t 0.1 then
      let blue := py_int (10 + t * 500 * intensity) in
      let green := py_int (5 + t * 300 * intensity) in
      (0%Z, green, blue)
    else if Rltb t 0.6 then
      let wave := sin (t * PI * 8 + animation_time self * 3) in
      let blue := py_int (50 + (t - 0.1) * 400 * intensity + wave * 30) in
      let green := py_int (30 + (t - 0.1) * 300 * intensity + wave * 40) in
      let red := py_int (wave * 20) in
      (red, green, blue)
    else
      let foam := sin (t * PI * 16 + animation_time self * 5) in
      let blue := py_int (150 + (t - 0.6) * 200 + foam * 50) in
      let green := py_int (200 + (t - 0.6) * 50 + foam * 30) in
      let red := py_int (100 + foam * 40) in
      (red, green, blue) in
  (clamp_channel red, clamp_channel green, clamp_channel blue).

Definition fire_color (t intensity : R) : rgb :=
  let flicker := sin (t * PI * 12 + animation_time self * 8) * 0.1 in
  let adjusted_t := Rmax 0 (Rmin 1 (t + flicker)) in
  let '(red, green, blue) :=
    if Rltb adjusted_t 0.2 then
      let red := py_int (20 + adjusted_t * 600 * intensity) in
      let green := py_int (adjusted_t * 100 * intensity) in
      (red, green, 0%Z)
    else if Rltb adjusted_t 0.5 then
      let red := py_int (120 + (adjusted_t - 0.2) * 400 * intensity) in
      let green := py_int (20 + (adjusted_t - 0.2) * 600 * intensity) in
      let blue := py_int ((adjusted_t - 0.2) * 100 * intensity) in
      (red, green, blue)
    else if Rltb adjusted_t 0.8 then
      let red := py_int (200 + (adjusted_t - 0.5) * 150 * intensity) in
      let green := py_int (120 + (adjusted_t - 0.5) * 400 * intensity) in
      let blue := py_int (30 + (adjusted_t - 0.5) * 200 * intensity) in
      (red, green, blue)
    else
      let green := py_int (220 + (adjusted_t - 0.8) * 175 * intensity) in
      let blue := py_int (60 + (adjusted_t - 0.8) * 700 * intensity) in
      (255%Z, green, blue) in
  (clamp_channel red, clamp_channel green, clamp_channel blue).

Definition electric_color (t intensity : R) : rgb :=
  let pulse := sin (t * PI * 6 + animation_time self * 10) * 0.3 in
  let spark := sin (t * PI * 20 + animation_time self * 15) * 0.1 in
  let base_hue := 0.6 + t * 0.3 + pulse * 0.1 in
  let saturation := 0.9 + spark * 0.1 in
  let value := intensity * (0.3 + 0.7 * t + pulse * 0.3) in
  hsv_to_rgb (fmod1 base_hue) (Rmin 1 saturation) (Rmin 1 value).

Definition cosmic_color (t intensity : R) : rgb :=
  let swirl := sin (t * PI * 3 + animation_time self * 2) * 0.2 in
  let twinkle := sin (t * PI * 25 + animation_time self * 12) * 0.1 in
  let '(red, green, blue) :=
    if Rltb t 0.3 then
      let red := py_int (20 + t * 200 * intensity + twinkle * 50) in
      let green := py_int (5 + t * 50 * intensity) in
      let blue := py_int (40 + t * 400 * intensity + swirl * 60) in
      (red, green, blue)
    else if Rltb t 0.7 then
      let red := py_int (60 + (t - 0.3) * 400 * intensity + swirl * 80) in
      let green := py_int (20 + (t - 0.3) * 200 * intensity + twinkle * 40) in
      let blue := py_int (120 + (t - 0.3) * 300 * intensity) in
      (red, green, blue)
    else
      let red := py_int (200 + (t - 0.7) * 180 * intensity) in
      let green := py_int (150 + (t - 0.7) * 300 * intensity) in
      let blue := py_int (50 + (t - 0.7) * 400 * intensity + twinkle * 100) in
      (red, green, blue) in
  (clamp_channel red, clamp_channel green, clamp_channel blue).

Definition vintage_color (t intensity : R) : rgb :=
  let base := t * intensity in
  let red := py_int (100 + base * 120) in
  let green := py_int (80 + base * 100) in
  let blue := py_int (50 + base * 60) in
  (clamp_channel red, clamp_channel green, clamp_channel blue).

Definition neon_color (t intensity : R) : rgb :=
  let glow := sin (t * PI * 8 + animation_time self * 6) * 0.2 in
  let hue := fmod1 (t * 0.8 + animation_time self * 0.1) in
  hsv_to_rgb hue 1 (Rmin 1 (intensity * (0.7 + 0.3 * t + glow))).

Definition ice_color (t intensity : R) : rgb :=
  let crystal := sin (t * PI * 15 + animation_time self * 4) * 0.1 in
  let blue_base := 150 + t * 100 * intensity + crystal * 30 in
  let red_base := 100 + t * 120 * intensity + crystal * 50 in
  let green_base := 130 + t * 110 * intensity + crystal * 40 in
  (clamp_channel (py_int red_base),
   clamp_channel (py_int green_base),
   clamp_channel (py_int blue_base)).

Definition sunset_color (t intensity : R) : rgb :=
  let '(red, green, blue) :=
    if Rltb t 0.4 then
      let red := py_int (255 * intensity) in
      let green := py_int (120 + t * 300 * intensity) in
      let blue := py_int (30 + t * 100 * intensity) in
      (red, green, blue)
    else
      let red := py_int (200 + (1 - t) * 100 * intensity) in
      let green := py_int (50 + t * 150 * intensity) in
      let blue := py_int (80 + t * 300 * intensity) in
      (red, green, blue) in
  (clamp_channel red, clamp_channel green, clamp_channel blue).

Definition matrix_color (t intensity : R) : rgb :=
  let digital := sin (t * PI * 30 + animation_time self * 20) * 0.2 in
  let green := py_int (50 + t * 200 * intensity + digital * 50) in
  let red := py_int (t * 50 * intensity) in
  let blue := py_int (t * 30 * intensity) in
  (clamp_channel red, clamp_channel green, clamp_channel blue).

(** [color_functions.get(self.current_palette, self.rainbow_color)] *)
Definition color_func (k : PaletteType) : R -> R -> rgb :=
  match k with
  | RAINBOW => rainbow_color
  | OCEAN => ocean_color
  | FIRE => fire_color
  | ELECTRIC => electric_color
  | COSMIC => cosmic_color
  | VINTAGE => vintage_color
  | NEON => neon_color
  | ICE => ice_color
  | SUNSET => sunset_color
  | MATRIX => matrix_color
  end.

End Palettes.

Definition cache_key (self : ColorPalette) (iterations max_iterations : Z)
    : Z * Z * nat * Z :=
  (iterations, max_iterations, current_palette_index self,
   py_int (animation_time self * 100)).

(** The colour [get_color] computes when the cache has no entry.  For a
    negative [t], [np.sqrt(t)] is NaN (a warning, no exception) and
    [min(1.0, nan)] is its first argument, [1.0]. *)
Definition compute_color (self : ColorPalette) (iterations max_iterations : Z)
    : res rgb :=
  if (max_iterations <=? iterations)%Z then Ok (0, 0, 0)%Z
  else
    t ← fdiv (IZR iterations) (IZR max_iterations);
    let intensity := if Rle_dec 0 t then Rmin 1 (sqrt t * 1.2) else 1 in
    Ok (color_func self (current_palette self) t intensity).

Definition get_color (iterations max_iterations : Z) : M ColorPalette rgb :=
  self ← get;
  let key := cache_key self iterations max_iterations in
  match color_cache self !! key with
  | Some color => mret color
  | None =>
      color ← lift (compute_color self iterations max_iterations);
      (if (size (color_cache self) <? cache_size self)%nat
       then modify (set_color_cache (<[key := color]> (color_cache self)))
       else mret tt);;
      mret color
  end.

(** ** [apply_colors] *)

Definition set_animation_time (t : R) (p : ColorPalette) : ColorPalette :=
  mkPalette (current_palette_index p) (current_palette p) (color_cache p)
    (cache_size p) t (animation_speed p).

(** [for x in xs: ...] over a method that mutates [self]. *)
Fixpoint for_each_M {S A B : Type} (f : A -> M S B) (xs : list A)
    : M S (list B) :=
  match xs with
  | [] => mret []
  | x :: xs' =>
      y ← f x;
      ys ← for_each_M f xs';
      mret (y :: ys)
  end.

(** [np.max] of the flattened array; an empty array raises. *)
Definition np_max (values : list Z) : res Z :=
  match values with
  | [] => Raise ValueError
  | v :: vs => Ok (fold_left Z.max vs v)
  end.

Fixpoint insert_sorted (v : Z) (sorted : list Z) : list Z :=
  match sorted with
  | [] => [v]
  | u :: rest =>
      if (v <? u)%Z then v :: u :: rest
      else if (v =? u)%Z then u :: rest
      else u :: insert_sorted v rest
  end.

(** [np.unique]: the distinct values in increasing order. *)
Definition np_unique (values : list Z) : list Z :=
  fold_right insert_sorted [] values.

(** A store into an [np.uint8] cell keeps the low 8 bits. *)
Definition uint8 (v : Z) : Z := (v mod 256)%Z.

Definition apply_colors (fractal_data : grid)
    : M ColorPalette (list (list rgb)) :=
  self ← get;
  let time := animation_time self + animation_speed self in
  modify (set_animation_time (if Rgtb time (2 * PI) then 0 else time));;
  max_iter ← lift (np_max (concat fractal_data));
  color_map ←
    for_each_M (fun value =>
                  color ← get_color value max_iter;
                  mret (value, color))
      (np_unique (concat fractal_data));
  let color_map : gmap Z rgb := list_to_map color_map in
  mret (map (map (fun iterations =>
                    let '(r, g, b) := default (0, 0, 0)%Z
                                        (color_map !! iterations) in
                    (uint8 r, uint8 g, uint8 b)))
          fractal_data).

(** ** [smooth_coloring] *)

(** A [float64] of the compiled function: a real number, an infinity or
    NaN. *)
Inductive float64 : Type :=
| Finite (x : R)
| PosInf
| NegInf
| NaN.

(** [np.log2]: zero gives [-inf], a negative argument gives [nan]. *)
Definition np_log2 (x : float64) : float64 :=
  match x with
  | Finite r =>
      if Rlt_dec 0 r then Finite (ln r / ln 2)
      else if Req_dec_T r 0 then NegInf
      else NaN
  | PosInf => PosInf
  | NegInf => NaN
  | NaN => NaN
  end.

(** [a - x] for a real [a] *)
Definition float_sub (a : R) (x : float64) : float64 :=
  match x with
  | Finite r => Finite (a - r)
  | PosInf => NegInf
  | NegInf => PosInf
  | NaN => NaN
  end.

Definition smooth_coloring (iterations : Z) (z : complex) (max_iter : Z)
    : float64 :=
  if (iterations <? max_iter)%Z then
    let smooth :=
      float_sub (IZR iterations + 1) (np_log2 (np_log2 (Finite (Cabs z)))) in
    smooth
  else Finite (IZR iterations).

(** * Vocabulary of the statements *)

(** C6 as the specification words it: a grid is returned and every entry
    lies in [[0, max_iter]]. *)
Definition entries_within_cap (h w : Z) (x_min x_max y_min y_max : R)
    (m : Z) : Prop :=
  exists g, mandelbrot_calculation h w x_min x_max y_min y_max m = Ok g /\
    forall i j, (0 <= i < h)%Z -> (0 <= j < w)%Z ->
      exists v, cell g i j = Some v /\ (0 <= v <= m)%Z.

(** C3 as the specification words it:
    [clamp(floor(50 + log10(zoom + 1) * 30), 50, 2000)]. *)
Definition adaptive_iterations_spec (zoom : R) : Z :=
  Z.max 50 (Z.min (Int_part (50 + ln (zoom + 1) / ln 10 * 30)) 2000).

(** The zoom after the two limit tests of [zoom_at_point]. *)
Definition clamp_zoom (z : R) : R :=
  let capped := if Rgtb z 1e15 then 1e15 else z in
  if Rltb capped 0.1 then 0.1 else capped.

(** The plane point under a screen coordinate, along one axis. *)
Definition screen_to_plane (center view : R) (s n : Z) : R :=
  center - view / 2
  + (center + view / 2 - (center - view / 2)) * IZR s / IZR n.

(** The facts about the view that every reachable engine satisfies. *)
Definition view_ok (e : MandelbrotEngine) : Prop :=
  0.1 <= zoom e <= 1e15 /\
  (height e <> 0%Z -> aspect_ratio e = IZR (width e) / IZR (height e)) /\
  min_iter e = 50%Z /\ max_max_iter e = 2000%Z.




(** The states an engine can be in: constructed, then driven by any
    commands and any [generate] calls. *)
Inductive reachable : MandelbrotEngine -> Prop :=
| reach_init (w h : Z) (e : MandelbrotEngine) :
    engine_init w h = Ok e -> reachable e
| reach_run (c : command) (e : MandelbrotEngine) :
    reachable e -> reachable (snd (run c e))
| reach_generate (e : MandelbrotEngine) :
    reachable e -> reachable (snd (generate e)).

(** [last_params] and [cached_result] are set and cleared together. *)
Definition cache_paired (e : MandelbrotEngine) : Prop :=
  last_params e = None <-> cached_result e = None.

(** The state [generate] leaves after a computation. *)
Definition rendered (e : MandelbrotEngine) (result : grid)
    : MandelbrotEngine :=
  set_render_count (render_count e + 1)
    (set_cache (Some (current_params e)) (Some result) e).

Definition channels_ok (c : rgb) : Prop :=
  let '(r, g, b) := c in
  (0 <= r <= 255)%Z /\ (0 <= g <= 255)%Z /\ (0 <= b <= 255)%Z.

(** The states a palette can be in. *)
Inductive palette_reachable : ColorPalette -> Prop :=
| palette_reach_init : palette_reachable palette_init
| palette_reach_next (p : ColorPalette) :
    palette_reachable p -> palette_reachable (snd (next_palette p))
| palette_reach_get (iterations max_iterations : Z) (p : ColorPalette) :
    palette_reachable p ->
    palette_reachable (snd (get_color iterations max_iterations p))
| palette_reach_apply (fractal_data : grid) (p : ColorPalette) :
    palette_reachable p ->
    palette_reachable (snd (apply_colors fractal_data p)).

(** What every cached colour satisfies. *)
Definition cache_sound (p : ColorPalette) : Prop :=
  forall (v m : Z) (i : nat) (b : Z) (c : rgb),
    color_cache p !! (v, m, i, b) = Some c ->
    ((0 <= v)%Z -> channels_ok c) /\ ((m <= v)%Z -> c = (0, 0, 0)%Z).

(** The computation a [generate] call performs when it does not return
    the held grid. *)
Definition render (e : MandelbrotEngine) : res grid :=
  '(x_min, x_max, y_min, y_max) ← get_bounds e;
  adaptive_iter ← adaptive_iterations e (zoom e);
  mandelbrot_calculation (height e) (width e) x_min x_max y_min y_max
    (Z.min (max_iter e) adaptive_iter).

(** The held grid is the one [render] gives for the stored tuple. *)
Definition cache_coherent (e : MandelbrotEngine) : Prop :=
  forall p g, last_params e = Some p -> cached_result e = Some g ->
    forall e2, current_params e2 = p ->
      aspect_ratio e2 = aspect_ratio e ->
      min_iter e2 = min_iter e -> max_max_iter e2 = max_max_iter e ->
      render e2 = Ok g.

(** With a height that is not zero, the derived fields agree with the
    size. *)
Definition sized (e : MandelbrotEngine) : Prop :=
  height e <> 0%Z ->
  aspect_ratio e = IZR (width e) / IZR (height e) /\
  total_pixels e = (width e * height e)%Z.

(** A command whose iteration step, if it has one, is not negative. *)
Definition step_nonneg (c : command) : Prop :=
  match c with
  | IncreaseIterations f => (0 <= f)%Z
  | DecreaseIterations f => (0 <= f)%Z
  | _ => True
  end.

(** [re^2 + im^2] *)
Definition Cnorm2 (z : complex) : R := fst z * fst z + snd z * snd z.

Definition Cconj (z : complex) : complex := (fst z, - snd z).

(** What holds of the palette state between calls. *)
Definition palette_ok (p : ColorPalette) : Prop :=
  (current_palette_index p < 10)%nat /\
  current_palette p = nth (current_palette_index p) palettes RAINBOW /\
  cache_size p = 1000%nat /\
  animation_speed p = 0.02 /\
  0 <= animation_time p <= 2 * PI /\
  (size (color_cache p) <= 1000)%nat.

(** * Proof steps *)

Ltac run_M :=
  cbv beta iota zeta delta
    [mbind mret M_bind M_ret res_bind get modify lift].

Ltac fields :=
  cbn [width height x_center y_center zoom aspect_ratio max_iter min_iter
       max_max_iter last_params cached_result render_count total_pixels
       set_width set_height set_x_center set_y_center set_zoom
       set_aspect_ratio set_max_iter set_cache set_render_count
       set_total_pixels current_params fst snd].

Ltac split_div :=
  match goal with
  | |- context [Req_dec_T ?a 0] => destruct (Req_dec_T a 0); run_M
  end.

(** * Properties *)

(** ** Results and loops *)

Lemma for_each_Ok {A B : Type} (f : A -> res B) (xs : list A) (ys : list B) :
  for_each f xs = Ok ys <-> Forall2 (fun x y => f x = Ok y) xs ys.
Proof.
  revert ys. induction xs as [|x xs IH]; intros ys; cbn.
  - split.
    + intros H. inversion H. constructor.
    + intros H. inversion H. reflexivity.
  - destruct (f x) as [y|e] eqn:Hx; cbn.
    + destruct (for_each f xs) as [ys'|e] eqn:Hxs; cbn.
      * split.
        -- intros H. inversion H. subst. constructor; [exact Hx|].
           apply IH. reflexivity.
        -- intros H. inversion H as [|? y' ? ys'' Hy Hys]. subst.
           apply IH in Hys. congruence.
      * split; [discriminate|].
        intros H. inversion H as [|? y' ? ys'' Hy Hys]. subst.
        apply IH in Hys. discriminate.
    + split; [discriminate|].
      intros H. inversion H. congruence.
Qed.

Lemma for_each_total {A B : Type} (f : A -> res B) (xs : list A) :
  (forall x, In x xs -> exists y, f x = Ok y) ->
  exists ys, for_each f xs = Ok ys.
Proof.
  induction xs as [|x xs IH]; intros Hf; cbn.
  - exists []. reflexivity.
  - destruct (Hf x) as [y Hy]; [left; reflexivity|].
    destruct IH as [ys Hys]; [intros x' Hx'; apply Hf; right; exact Hx'|].
    exists (y :: ys). rewrite Hy. cbn. rewrite Hys. reflexivity.
Qed.

Lemma range_In (n k : Z) : In k (range n) <-> (0 <= k < n)%Z.
Proof.
  unfold range. rewrite in_map_iff. split.
  - intros (m & Hm & Hin). apply in_seq in Hin. lia.
  - intros Hk. exists (Z.to_nat k). split; [lia|]. apply in_seq. lia.
Qed.

Lemma range_nth (n k : Z) :
  (0 <= k < n)%Z -> nth_error (range n) (Z.to_nat k) = Some k.
Proof.
  intros Hk. unfold range.
  rewrite nth_error_map, nth_error_seq.
  destruct (Nat.ltb_spec (Z.to_nat k) (Z.to_nat n)); [|lia].
  cbn. f_equal. lia.
Qed.

Lemma range_length (n : Z) : length (range n) = Z.to_nat n.
Proof. unfold range. rewrite length_map, length_seq. reflexivity. Qed.

Lemma Forall2_nth {A B : Type} (P : A -> B -> Prop) (xs : list A)
    (ys : list B) (k : nat) (x : A) :
  Forall2 P xs ys -> nth_error xs k = Some x ->
  exists y, nth_error ys k = Some y /\ P x y.
Proof.
  intros H. revert k. induction H as [|x' y' xs ys Hxy _ IH]; intros k Hk.
  - destruct k; discriminate.
  - destruct k as [|k]; cbn in *.
    + inversion Hk. subst. exists y'. auto.
    + apply IH. exact Hk.
Qed.

(** ** The escape-time loop *)

Lemma int32_small (v : Z) :
  (- 2147483648 <= v < 2147483648)%Z -> int32 v = v.
Proof.
  intros Hv. unfold int32.
  change (2 ^ 31)%Z with 2147483648%Z. change (2 ^ 32)%Z with 4294967296%Z.
  rewrite Z.mod_small; lia.
Qed.

Lemma Rgtb_true (x y : R) : Rgtb x y = true <-> x > y.
Proof. unfold Rgtb. destruct (Rgt_dec x y); split; auto; discriminate. Qed.

Lemma Rgtb_false (x y : R) : Rgtb x y = false <-> x <= y.
Proof.
  unfold Rgtb. destruct (Rgt_dec x y); split; auto; try discriminate; lra.
Qed.

Lemma Rltb_true (x y : R) : Rltb x y = true <-> x < y.
Proof. unfold Rltb. destruct (Rlt_dec x y); split; auto; discriminate. Qed.

Lemma Rltb_false (x y : R) : Rltb x y = false <-> y <= x.
Proof.
  unfold Rltb. destruct (Rlt_dec x y); split; auto; try discriminate; lra.
Qed.

Lemma Cabs_origin : Cabs (0, 0) = 0.
Proof.
  unfold Cabs. cbn [fst snd].
  replace (0 * 0 + 0 * 0) with 0 by ring. apply sqrt_0.
Qed.

Lemma Cabs_gt_2 (z : complex) :
  4 < fst z * fst z + snd z * snd z -> Cabs z > 2.
Proof.
  intros H. unfold Cabs.
  replace 2 with (sqrt 4).
  - apply sqrt_lt_1_alt. lra.
  - replace 4 with (2 * 2) by ring. apply sqrt_square. lra.
Qed.

(** The divergence [break] stores an index the loop has reached. *)
Lemma iterate_diverged (fuel : nat) (n : Z) (z c : complex) (k : Z) :
  iterate fuel n z c = Diverged k -> (n <= k < n + Z.of_nat fuel)%Z.
Proof.
  revert n z. induction fuel as [|fuel IH]; intros n z H; cbn [iterate] in H.
  - discriminate.
  - destruct (Rgtb (Cabs z) 2).
    + inversion H. lia.
    + destruct ((20 <? n)%Z && Rltb (Cabs (Cadd (Cmul z z) c)) 1e-10).
      * discriminate.
      * apply IH in H. lia.
Qed.

Lemma assigned_range (max_iter : Z) (c : complex) :
  (0 <= max_iter)%Z ->
  let x := iterate (Z.to_nat max_iter) 0 (0, 0) c in
  (0 <= assigned max_iter x <= max_iter)%Z /\
  (assigned max_iter x = max_iter <-> forall n, x <> Diverged n).
Proof.
  intros Hm x. destruct x as [n| |] eqn:Hx; cbn.
  - apply iterate_diverged in Hx. split; [lia|]. split.
    + intros ->. lia.
    + intros H. exfalso. apply (H n). reflexivity.
  - split; [lia|]. split; [discriminate|reflexivity].
  - split; [lia|]. split; [discriminate|reflexivity].
Qed.

Lemma escape_count_range (max_iter : Z) (c : complex) :
  (0 <= max_iter < 2147483648)%Z ->
  (0 <= escape_count max_iter c <= max_iter)%Z /\
  (escape_count max_iter c = max_iter <->
   forall n, iterate (Z.to_nat max_iter) 0 (0, 0) c <> Diverged n).
Proof.
  intros Hm. unfold escape_count.
  destruct (assigned_range max_iter c) as [Hr Hi]; [lia|].
  cbn zeta in Hr, Hi. rewrite int32_small by lia. auto.
Qed.

(** At [c = 0] the orbit stays at the origin and the periodicity test
    fires at [n = 21]. *)
Lemma iterate_origin (fuel : nat) (n : Z) :
  (0 <= n <= 21)%Z -> (21 - n < Z.of_nat fuel)%Z ->
  iterate fuel n (0, 0) (0, 0) = Periodic.
Proof.
  revert n. induction fuel as [|fuel IH]; intros n Hn Hf; [lia|].
  cbn [iterate].
  assert (Hz : Cadd (Cmul (0, 0) (0, 0)) (0, 0) = (0, 0)).
  { unfold Cadd, Cmul. cbn [fst snd]. f_equal; ring. }
  rewrite Hz, Cabs_origin.
  assert (H2 : Rgtb 0 2 = false) by (apply Rgtb_false; lra).
  assert (H10 : Rltb 0 1e-10 = true) by (apply Rltb_true; lra).
  rewrite H2, H10, andb_true_r.
  destruct (Z.ltb_spec 20 n); [reflexivity|].
  apply IH; lia.
Qed.

(** At [c = 2 + 2j] the test [abs(z) > 2.0] first succeeds at [n = 1]. *)
Lemma iterate_2_2 (fuel : nat) :
  iterate (S (S fuel)) 0 (0, 0) (2, 2) = Diverged 1.
Proof.
  cbn [iterate]. rewrite Cabs_origin.
  assert (H2 : Rgtb 0 2 = false) by (apply Rgtb_false; lra).
  rewrite H2. cbn [Z.ltb Z.compare andb].
  assert (Hg : Rgtb (Cabs (Cadd (Cmul (0, 0) (0, 0)) (2, 2))) 2 = true).
  { apply Rgtb_true, Cabs_gt_2. unfold Cadd, Cmul. cbn [fst snd]. lra. }
  rewrite Hg. reflexivity.
Qed.

(** With a NaN coordinate no test of the loop succeeds: it runs into its
    [else] branch. *)
Lemma iterate_nan_completed (fuel : nat) (n : Z) :
  iterate_nan fuel n None = Completed /\
  iterate_nan fuel n (Some (0, 0)) = Completed.
Proof.
  assert (Hnan : forall f k, iterate_nan f k None = Completed).
  { induction f as [|f IH]; intros k; cbn [iterate_nan]; [reflexivity|].
    rewrite andb_false_r. apply IH. }
  split; [apply Hnan|].
  destruct fuel as [|fuel]; cbn [iterate_nan]; [reflexivity|].
  rewrite Cabs_origin.
  assert (H2 : Rgtb 0 2 = false) by (apply Rgtb_false; lra).
  rewrite H2, andb_false_r. apply Hnan.
Qed.

Lemma pixel_value_nan (m : Z) (x : exn) :
  pixel_exit m (Raise x) = Completed /\ pixel_value m (Raise x) = int32 m.
Proof.
  assert (H : pixel_exit m (Raise x) = Completed)
    by (cbn [pixel_exit]; apply iterate_nan_completed).
  split; [exact H|]. unfold pixel_value. rewrite H. reflexivity.
Qed.

(** ** The grid *)

Lemma for_each_constant {A B : Type} (f : A -> res B) (b : B) (xs : list A) :
  (forall x, f x = Ok b) -> for_each f xs = Ok (repeat b (length xs)).
Proof.
  intros Hf. induction xs as [|x xs IH]; cbn; [reflexivity|].
  rewrite Hf. cbn. rewrite IH. reflexivity.
Qed.

Section Grid.

Variables (h w : Z) (x_min x_max y_min y_max : R) (m : Z).

Lemma mandelbrot_pixel (g : grid) (i j : Z) :
  mandelbrot_calculation h w x_min x_max y_min y_max m = Ok g ->
  (0 <= i < h)%Z -> (0 <= j < w)%Z ->
  cell g i j
  = Some (pixel_value m (pixel_point h w x_min x_max y_min y_max i j)).
Proof.
  unfold mandelbrot_calculation. intros Hg Hi Hj.
  destruct ((h <? 0)%Z || (w <? 0)%Z); [discriminate|].
  apply for_each_Ok in Hg.
  destruct (Forall2_nth _ _ _ _ _ Hg (range_nth h i Hi)) as (row & Hrow & Hr).
  apply for_each_Ok in Hr.
  destruct (Forall2_nth _ _ _ _ _ Hr (range_nth w j Hj)) as (v & Hv & Hc).
  unfold cell. rewrite Hrow, Hv. congruence.
Qed.

Lemma mandelbrot_cell (g : grid) (i j : Z) (c : complex) :
  mandelbrot_calculation h w x_min x_max y_min y_max m = Ok g ->
  (0 <= i < h)%Z -> (0 <= j < w)%Z ->
  pixel_point h w x_min x_max y_min y_max i j = Ok c ->
  cell g i j = Some (escape_count m c).
Proof.
  intros Hg Hi Hj Hc. rewrite (mandelbrot_pixel g i j Hg Hi Hj), Hc.
  reflexivity.
Qed.

Lemma pixel_to_plane_total (lo hi : R) (k n : Z) :
  n <> 1%Z -> exists x, pixel_to_plane lo hi k n = Ok x.
Proof.
  intros Hn. unfold pixel_to_plane.
  destruct (Req_dec_T (IZR (n - 1)) 0) as [H0|H0].
  - apply eq_IZR in H0. lia.
  - eexists. reflexivity.
Qed.

Lemma pixel_point_total (i j : Z) :
  h <> 1%Z -> w <> 1%Z ->
  exists c, pixel_point h w x_min x_max y_min y_max i j = Ok c.
Proof.
  intros Hh Hw. unfold pixel_point.
  destruct (pixel_to_plane_total x_min x_max j w Hw) as [x Hx].
  destruct (pixel_to_plane_total y_min y_max i h Hh) as [y Hy].
  rewrite Hx. cbn. rewrite Hy. cbn. eexists. reflexivity.
Qed.

(** With a single-pixel axis no pixel has a coordinate that is a
    number. *)
Lemma pixel_point_single_axis (i j : Z) :
  w = 1%Z \/ h = 1%Z ->
  pixel_point h w x_min x_max y_min y_max i j = Raise FloatingPointError.
Proof.
  intros Hone. unfold pixel_point, pixel_to_plane.
  destruct (Req_dec_T (IZR (w - 1)) 0) as [Hw0|Hw0]; [reflexivity|].
  destruct (Req_dec_T (IZR (h - 1)) 0) as [Hh0|Hh0]; [reflexivity|].
  exfalso. destruct Hone as [-> | ->]; [apply Hw0|apply Hh0]; reflexivity.
Qed.

Lemma mandelbrot_total :
  (0 <= h)%Z -> (0 <= w)%Z ->
  exists g, mandelbrot_calculation h w x_min x_max y_min y_max m = Ok g.
Proof.
  intros H0h H0w. unfold mandelbrot_calculation.
  destruct (Z.ltb_spec h 0); [lia|]. destruct (Z.ltb_spec w 0); [lia|].
  cbn [orb]. apply for_each_total. intros i _.
  apply for_each_total. intros j _. eexists. reflexivity.
Qed.

Lemma mandelbrot_shape (g : grid) :
  mandelbrot_calculation h w x_min x_max y_min y_max m = Ok g ->
  length g = Z.to_nat h /\ Forall (fun row => length row = Z.to_nat w) g.
Proof.
  unfold mandelbrot_calculation. intros Hg.
  destruct ((h <? 0)%Z || (w <? 0)%Z); [discriminate|].
  apply for_each_Ok in Hg. split.
  - rewrite <- (Forall2_length _ _ _ Hg). apply range_length.
  - clear -Hg. induction Hg as [|i row idx rows Hr _ IH]; constructor; auto.
    apply for_each_Ok in Hr. rewrite <- (Forall2_length _ _ _ Hr).
    apply range_length.
Qed.

Lemma single_axis_grid :
  (0 <= h)%Z -> (0 <= w)%Z -> w = 1%Z \/ h = 1%Z ->
  mandelbrot_calculation h w x_min x_max y_min y_max m
  = Ok (repeat (repeat (int32 m) (Z.to_nat w)) (Z.to_nat h)).
Proof.
  intros Hh Hw Hone. unfold mandelbrot_calculation.
  destruct (Z.ltb_spec h 0); [lia|]. destruct (Z.ltb_spec w 0); [lia|].
  cbn [orb].
  rewrite <- (range_length h), <- (range_length w).
  apply for_each_constant. intros i.
  apply for_each_constant. intros j.
  rewrite (pixel_point_single_axis i j Hone).
  rewrite (proj2 (pixel_value_nan m FloatingPointError)). reflexivity.
Qed.

(** C1 (code defect).  Nothing guards a single-pixel axis: its coordinate
    is interpolated as [0 / 0], which is NaN and not a fixed coordinate.
    The call does return a grid of [height] rows of [width] entries, but
    every entry is [max_iter] (as an [int32]) whatever the bounds are,
    because no test of the loop succeeds on a NaN. *)
Theorem single_pixel_axis_all_max_iter :
  (1 <= h)%Z -> (1 <= w)%Z -> w = 1%Z \/ h = 1%Z ->
  mandelbrot_calculation h w x_min x_max y_min y_max m
  = Ok (repeat (repeat (int32 m) (Z.to_nat w)) (Z.to_nat h)).
Proof. intros Hh Hw. apply single_axis_grid; lia. Qed.

End Grid.

Lemma single_pixel_axis_all_max_iter_witness :
  mandelbrot_calculation 1 1 (-2) 1 (-1) 1 50 = Ok [[50]]%Z.
Proof.
  apply (single_pixel_axis_all_max_iter 1 1 (-2) 1 (-1) 1 50);
    [lia | lia | left; reflexivity].
Defined.

(** ** Scenario B: the pixel at [2 + 2j] *)

Lemma escape_count_2_2 (m : Z) :
  (0 <= m)%Z -> escape_count m (2, 2) = Z.min 1 m.
Proof.
  intros Hm. unfold escape_count.
  destruct (Z.to_nat m) as [|[|fuel]] eqn:Hf.
  - assert (m = 0%Z) by lia. subst m. reflexivity.
  - assert (m = 1%Z) by lia. subst m.
    cbn [iterate]. rewrite Cabs_origin.
    assert (H2 : Rgtb 0 2 = false) by (apply Rgtb_false; lra).
    rewrite H2. reflexivity.
  - rewrite iterate_2_2. cbn [assigned].
    rewrite Z.min_l by lia. reflexivity.
Qed.

Lemma cell_at_2_2 (h w : Z) (x_min x_max y_min y_max : R) (m i j : Z) :
  (0 <= m)%Z -> (0 <= i < h)%Z -> (0 <= j < w)%Z ->
  pixel_point h w x_min x_max y_min y_max i j = Ok (2, 2) ->
  exists g, mandelbrot_calculation h w x_min x_max y_min y_max m = Ok g /\
            cell g i j = Some (Z.min 1 m).
Proof.
  intros Hm Hi Hj Hp.
  destruct (mandelbrot_total h w x_min x_max y_min y_max m) as [g Hg];
    [lia | lia |].
  exists g. split; [exact Hg|].
  rewrite (mandelbrot_cell _ _ _ _ _ _ _ g i j (2, 2) Hg Hi Hj Hp).
  f_equal. apply escape_count_2_2. exact Hm.
Qed.

Lemma pixel_point_corner :
  pixel_point 2 2 1 2 1 2 1 1 = Ok (2, 2).
Proof.
  unfold pixel_point, pixel_to_plane.
  destruct (Req_dec_T (IZR (2 - 1)) 0) as [H|H].
  - apply eq_IZR in H. lia.
  - change (2 - 1)%Z with 1%Z. cbn. do 2 f_equal; lra.
Qed.

(** C4 (as stated, refuted).  In the 2 x 2 grid over [1, 2] x [1, 2] the
    pixel (1, 1) lies at [2 + 2j]; with [max_iter = 50] its entry is 1,
    not 0. *)
Lemma escape_at_2_2_is_not_zero :
  exists g, mandelbrot_calculation 2 2 1 2 1 2 50 = Ok g /\
            pixel_point 2 2 1 2 1 2 1 1 = Ok (2, 2) /\
            cell g 1 1 = Some 1%Z /\ cell g 1 1 <> Some 0%Z.
Proof.
  destruct (cell_at_2_2 2 2 1 2 1 2 50 1 1) as (g & Hg & Hc);
    [lia | lia | lia | apply pixel_point_corner |].
  exists g. repeat split; [exact Hg | apply pixel_point_corner | exact Hc |].
  rewrite Hc. discriminate.
Qed.

(** C4 (amended).  A pixel whose plane coordinate is [2 + 2j] gets the
    entry 1 for every [max_iter >= 1], and 0 only for [max_iter = 0]:
    [z] starts at 0, so [abs(z) > 2.0] first succeeds at [n = 1], after
    the update [z = c]. *)
Theorem escape_at_2_2 (h w : Z) (x_min x_max y_min y_max : R) (m i j : Z) :
  (0 <= m)%Z -> (0 <= i < h)%Z -> (0 <= j < w)%Z ->
  pixel_point h w x_min x_max y_min y_max i j = Ok (2, 2) ->
  exists g, mandelbrot_calculation h w x_min x_max y_min y_max m = Ok g /\
            cell g i j = Some (Z.min 1 m).
Proof. apply cell_at_2_2. Qed.

Lemma escape_at_2_2_witness :
  exists g, mandelbrot_calculation 2 2 1 2 1 2 50 = Ok g /\
            cell g 1 1 = Some (Z.min 1 50).
Proof.
  apply (escape_at_2_2 2 2 1 2 1 2 50 1 1);
    [lia | lia | lia | apply pixel_point_corner].
Defined.

(** ** Entries of the grid *)

Lemma pixel_point_first :
  pixel_point 2 2 0 1 0 1 0 0 = Ok (0, 0).
Proof.
  unfold pixel_point, pixel_to_plane.
  destruct (Req_dec_T (IZR (2 - 1)) 0) as [H|H].
  - apply eq_IZR in H. lia.
  - change (2 - 1)%Z with 1%Z. cbn. do 2 f_equal; lra.
Qed.

Lemma escape_count_origin_overflow :
  escape_count 2147483648 (0, 0) = (-2147483648)%Z.
Proof.
  unfold escape_count. rewrite iterate_origin by lia. reflexivity.
Qed.

(** C6 (as stated, refuted).  With [max_iter = 2^31] the pixel at [c = 0]
    of the 2 x 2 grid over [0, 1] x [0, 1] leaves the loop at the
    periodicity test and [max_iter] is stored into an [int32] cell: the
    entry is [-2^31]. *)
Lemma entries_within_cap_fails :
  ~ entries_within_cap 2 2 0 1 0 1 2147483648.
Proof.
  intros (g & Hg & Hall).
  destruct (Hall 0%Z 0%Z) as (v & Hv & Hr); [lia | lia |].
  rewrite (mandelbrot_cell _ _ _ _ _ _ _ g 0 0 (0, 0) Hg) in Hv;
    [| lia | lia | apply pixel_point_first].
  rewrite escape_count_origin_overflow in Hv. inversion Hv. lia.
Qed.

Lemma pixel_value_range (m : Z) (c : res complex) :
  (0 <= m < 2147483648)%Z ->
  (0 <= pixel_value m c <= m)%Z /\
  (pixel_value m c = m <->
   pixel_exit m c = Completed \/ pixel_exit m c = Periodic).
Proof.
  intros Hm. destruct c as [c|x].
  - change (pixel_value m (Ok c)) with (escape_count m c).
    cbn [pixel_exit].
    destruct (escape_count_range m c Hm) as [Hr Hiff].
    split; [exact Hr|]. rewrite Hiff. split.
    + intros Hn. destruct (iterate (Z.to_nat m) 0 (0, 0) c) as [n| |];
        [exfalso; apply (Hn n); reflexivity | right | left]; reflexivity.
    + intros [-> | ->] n; discriminate.
  - destruct (pixel_value_nan m x) as [-> ->].
    rewrite int32_small by lia. split; [lia|]. split; auto.
Qed.

Lemma grid_entries (h w : Z) (x_min x_max y_min y_max : R) (m : Z) :
  (0 <= h)%Z -> (0 <= w)%Z -> h <> 1%Z -> w <> 1%Z ->
  (0 <= m < 2147483648)%Z ->
  exists g,
    mandelbrot_calculation h w x_min x_max y_min y_max m = Ok g /\
    length g = Z.to_nat h /\
    Forall (fun row => length row = Z.to_nat w) g /\
    forall i j, (0 <= i < h)%Z -> (0 <= j < w)%Z ->
      exists c v,
        pixel_point h w x_min x_max y_min y_max i j = Ok c /\
        cell g i j = Some v /\
        (0 <= v <= m)%Z /\
        let x := iterate (Z.to_nat m) 0 (0, 0) c in
        (v = m <-> x = Completed \/ x = Periodic).
Proof.
  intros H0h H0w Hh Hw Hm.
  destruct (mandelbrot_total h w x_min x_max y_min y_max m) as [g Hg];
    try assumption.
  exists g. split; [exact Hg|].
  destruct (mandelbrot_shape _ _ _ _ _ _ _ g Hg) as [Hlen Hrows].
  split; [exact Hlen|]. split; [exact Hrows|].
  intros i j Hi Hj.
  destruct (pixel_point_total h w x_min x_max y_min y_max i j Hh Hw)
    as [c Hc].
  exists c, (escape_count m c).
  split; [exact Hc|].
  split; [exact (mandelbrot_cell _ _ _ _ _ _ _ g i j c Hg Hi Hj Hc)|].
  exact (pixel_value_range m (Ok c) Hm).
Qed.

(** C6 (amended).  For [height >= 1], [width >= 1] and
    [0 <= max_iter <= 2^31 - 1] the call returns a grid of [height] rows
    of [width] entries; every entry lies in [[0, max_iter]], and it equals
    [max_iter] exactly when the pixel's loop ran to completion or left at
    the periodicity test, that is, when [abs(z) > 2.0] never succeeded. *)
Theorem entries_within_cap_int32 (h w : Z) (x_min x_max y_min y_max : R)
    (m : Z) :
  (1 <= h)%Z -> (1 <= w)%Z -> (0 <= m <= 2147483647)%Z ->
  exists g,
    mandelbrot_calculation h w x_min x_max y_min y_max m = Ok g /\
    length g = Z.to_nat h /\
    Forall (fun row => length row = Z.to_nat w) g /\
    forall i j, (0 <= i < h)%Z -> (0 <= j < w)%Z ->
      exists v,
        cell g i j = Some v /\
        (0 <= v <= m)%Z /\
        let x := pixel_exit m (pixel_point h w x_min x_max y_min y_max i j) in
        (v = m <-> x = Completed \/ x = Periodic).
Proof.
  intros Hh Hw Hm.
  destruct (mandelbrot_total h w x_min x_max y_min y_max m) as [g Hg];
    [lia | lia |].
  exists g. split; [exact Hg|].
  destruct (mandelbrot_shape _ _ _ _ _ _ _ g Hg) as [Hlen Hrows].
  split; [exact Hlen|]. split; [exact Hrows|].
  intros i j Hi Hj. eexists.
  split; [exact (mandelbrot_pixel _ _ _ _ _ _ _ g i j Hg Hi Hj)|].
  apply pixel_value_range. lia.
Qed.

Lemma entries_within_cap_int32_witness :
  exists g,
    mandelbrot_calculation 1 2 0 1 0 1 50 = Ok g /\
    length g = Z.to_nat 1 /\
    Forall (fun row => length row = Z.to_nat 2) g /\
    forall i j, (0 <= i < 1)%Z -> (0 <= j < 2)%Z ->
      exists v,
        cell g i j = Some v /\
        (0 <= v <= 50)%Z /\
        let x := pixel_exit 50 (pixel_point 1 2 0 1 0 1 i j) in
        (v = 50%Z <-> x = Completed \/ x = Periodic).
Proof.
  apply (entries_within_cap_int32 1 2 0 1 0 1 50); lia.
Defined.

(** ** [adaptive_iterations] *)

Lemma ln_10_pos : 0 < ln 10.
Proof. rewrite <- ln_1. apply ln_increasing; lra. Qed.

Lemma ln_2_lower : 3 * ln 10 <= 10 * ln 2.
Proof.
  assert (H10 : ln (10 ^ 3) = 3 * ln 10).
  { rewrite ln_pow by lra. cbn. f_equal. lra. }
  assert (H2 : ln (2 ^ 10) = 10 * ln 2).
  { rewrite ln_pow by lra. cbn. f_equal. lra. }
  rewrite <- H10, <- H2. left. apply ln_increasing; lra.
Qed.

Lemma ln_2_upper : 3 * ln 2 < ln 10.
Proof.
  assert (H2 : ln (2 ^ 3) = 3 * ln 2).
  { rewrite ln_pow by lra. cbn. f_equal. lra. }
  rewrite <- H2. apply ln_increasing; lra.
Qed.

Lemma log10_2_times_30 : 9 <= ln 2 / ln 10 * 30 < 10.
Proof.
  pose proof ln_10_pos as Hb. pose proof ln_2_lower as Hl.
  pose proof ln_2_upper as Hu.
  assert (He : ln 2 / ln 10 * ln 10 = ln 2) by (field; lra).
  split; nra.
Qed.

Lemma Int_part_ge (x : R) (k : Z) : IZR k <= x -> (k <= Int_part x)%Z.
Proof.
  intros Hk. destruct (base_Int_part x) as [_ Hx].
  assert (H : IZR k - 1 < IZR (Int_part x)) by lra.
  rewrite <- minus_IZR in H. apply lt_IZR in H. lia.
Qed.

Lemma Int_part_le (x : R) (k : Z) : x <= IZR k -> (Int_part x <= k)%Z.
Proof.
  intros Hk. destruct (base_Int_part x) as [Hx _].
  apply le_IZR. lra.
Qed.

Lemma py_int_nonneg (x : R) : 0 <= x -> py_int x = Int_part x.
Proof. intros H. unfold py_int. destruct (Rle_dec 0 x); [reflexivity|lra]. Qed.

Lemma adaptive_iterations_nonneg (self : MandelbrotEngine) (z : R) :
  min_iter self = 50%Z -> max_max_iter self = 2000%Z -> 0 <= z ->
  adaptive_iterations self z = Ok (adaptive_iterations_spec z).
Proof.
  intros Hmin Hmax Hz. unfold adaptive_iterations, np_log10.
  destruct (Rlt_dec 0 (z + 1)) as [_|Hn]; [|lra]. cbn.
  rewrite Hmin, Hmax. f_equal. unfold adaptive_iterations_spec.
  assert (Hl : 0 <= ln (z + 1) / ln 10).
  { apply Rmult_le_pos.
    - destruct (Req_dec_T z 0) as [->|Hne].
      + replace (0 + 1) with 1 by lra. rewrite ln_1. lra.
      + left. rewrite <- ln_1. apply ln_increasing; lra.
    - left. apply Rinv_0_lt_compat, ln_10_pos. }
  rewrite py_int_nonneg by nra.
  assert (H50 : (50 <= Int_part (50 + ln (z + 1) / ln 10 * 30))%Z).
  { apply Int_part_ge. lra. }
  lia.
Qed.

Lemma adaptive_iterations_at_1 (self : MandelbrotEngine) :
  min_iter self = 50%Z -> max_max_iter self = 2000%Z ->
  adaptive_iterations self 1 = Ok 59%Z.
Proof.
  intros Hmin Hmax.
  rewrite (adaptive_iterations_nonneg self 1 Hmin Hmax) by lra.
  f_equal. unfold adaptive_iterations_spec.
  replace (1 + 1) with 2 by lra.
  pose proof log10_2_times_30 as [Hlo Hhi].
  assert (Hi : Int_part (50 + ln 2 / ln 10 * 30) = 59%Z).
  { symmetry. apply Int_part_spec. split; lra. }
  rewrite Hi. reflexivity.
Qed.

Lemma engine_init_Ok (w h : Z) :
  h <> 0%Z ->
  engine_init w h =
  Ok (mkEngine w h (-0.5) 0 1 (IZR w / IZR h) 100 50 2000 None None 0
        (w * h)).
Proof.
  intros Hh. unfold engine_init, fdiv.
  destruct (Req_dec_T (IZR h) 0) as [H0|H0].
  - apply eq_IZR in H0. contradiction.
  - reflexivity.
Qed.

(** C3 (as stated, refuted).  In a fresh 800 x 600 engine
    [adaptive_iterations(1.0)] is 59, not 50. *)
Lemma adaptive_iterations_1_is_not_50 :
  exists self, engine_init 800 600 = Ok self /\
    adaptive_iterations self 1 = Ok 59%Z /\
    adaptive_iterations self 1 <> Ok 50%Z.
Proof.
  eexists. split; [apply engine_init_Ok; lia|].
  assert (H : forall s, min_iter s = 50%Z -> max_max_iter s = 2000%Z ->
                        adaptive_iterations s 1 = Ok 59%Z /\
                        adaptive_iterations s 1 <> Ok 50%Z).
  { intros s Hmin Hmax. rewrite (adaptive_iterations_at_1 s Hmin Hmax).
    split; [reflexivity|discriminate]. }
  apply H; reflexivity.
Qed.

(** C3 (amended).  With [min_iter = 50] and [max_max_iter = 2000], which
    no method changes, [adaptive_iterations(zoom)] is
    [min(int(50 + log10(zoom + 1) * 30), 2000)]; for [zoom >= 0] this is
    [clamp(floor(50 + log10(zoom + 1) * 30), 50, 2000)], and
    [adaptive_iterations(1.0) == 59]. *)
Theorem adaptive_iterations_clamp (self : MandelbrotEngine) (z : R) :
  min_iter self = 50%Z -> max_max_iter self = 2000%Z -> 0 <= z ->
  adaptive_iterations self z = Ok (adaptive_iterations_spec z) /\
  adaptive_iterations self 1 = Ok 59%Z.
Proof.
  intros Hmin Hmax Hz. split.
  - apply adaptive_iterations_nonneg; assumption.
  - apply adaptive_iterations_at_1; assumption.
Qed.

Lemma adaptive_iterations_clamp_witness :
  let self := mkEngine 800 600 (-0.5) 0 1 (800 / 600) 100 50 2000
                None None 0 480000 in
  adaptive_iterations self 1 = Ok (adaptive_iterations_spec 1) /\
  adaptive_iterations self 1 = Ok 59%Z.
Proof.
  intros self.
  apply (adaptive_iterations_clamp self 1); [reflexivity | reflexivity | lra].
Defined.

(** ** The engine: running the methods *)

Lemma clamp_zoom_range (z : R) : 0.1 <= clamp_zoom z <= 1e15.
Proof.
  unfold clamp_zoom, Rgtb, Rltb.
  destruct (Rgt_dec z 1e15);
    [destruct (Rlt_dec 1e15 0.1) | destruct (Rlt_dec z 0.1)]; lra.
Qed.


Lemma clamp_zoom_max_min (z : R) : clamp_zoom z = Rmax 0.1 (Rmin z 1e15).
Proof.
  unfold clamp_zoom, Rgtb, Rltb, Rmax, Rmin.
  destruct (Rgt_dec z 1e15); destruct (Rle_dec z 1e15); try lra.
  - destruct (Rlt_dec 1e15 0.1); destruct (Rle_dec 0.1 1e15); lra.
  - destruct (Rlt_dec z 0.1); destruct (Rle_dec 0.1 z); lra.
Qed.

Lemma get_bounds_Ok (e : MandelbrotEngine) :
  zoom e <> 0 -> aspect_ratio e <> 0 ->
  get_bounds e =
  Ok (x_center e - 3 / zoom e / 2, x_center e + 3 / zoom e / 2,
      y_center e - 3 / zoom e / aspect_ratio e / 2,
      y_center e + 3 / zoom e / aspect_ratio e / 2).
Proof.
  intros Hz Ha. unfold get_bounds, fdiv. run_M.
  repeat split_div; try contradiction. reflexivity.
Qed.

Lemma zoom_at_point_Ok (x y : Z) (k : R) (e : MandelbrotEngine) :
  zoom e <> 0 -> aspect_ratio e <> 0 -> width e <> 0%Z -> height e <> 0%Z ->
  zoom_at_point x y k e =
  (Ok tt,
   set_zoom (clamp_zoom (zoom e * k))
     (set_y_center
        (screen_to_plane (y_center e) (3 / zoom e / aspect_ratio e) y
           (height e))
        (set_x_center
           (screen_to_plane (x_center e) (3 / zoom e) x (width e)) e))).
Proof.
  intros Hz Ha Hw Hh. unfold zoom_at_point. run_M.
  rewrite (get_bounds_Ok e Hz Ha). unfold fdiv. run_M.
  destruct (Req_dec_T (IZR (width e)) 0) as [H0|_];
    [apply eq_IZR in H0; contradiction|].
  destruct (Req_dec_T (IZR (height e)) 0) as [H0|_];
    [apply eq_IZR in H0; contradiction|].
  reflexivity.
Qed.

(** Whether or not it raises, [zoom_at_point] leaves the size fields
    alone and the zoom either untouched or clamped. *)
Lemma zoom_at_point_fields (x y : Z) (k : R) (e : MandelbrotEngine) :
  let e' := snd (zoom_at_point x y k e) in
  width e' = width e /\ height e' = height e /\
  aspect_ratio e' = aspect_ratio e /\
  (zoom e' = zoom e \/ zoom e' = clamp_zoom (zoom e * k)).
Proof.
  unfold zoom_at_point, get_bounds, fdiv. run_M.
  repeat split_div; fields; auto.
Qed.

Lemma pan_fields (dx dy : Z) (e : MandelbrotEngine) :
  let e' := snd (pan dx dy e) in
  width e' = width e /\ height e' = height e /\
  aspect_ratio e' = aspect_ratio e /\ zoom e' = zoom e.
Proof.
  unfold pan, get_bounds, fdiv. run_M.
  repeat split_div; fields; auto.
Qed.

Lemma engine_init_view_ok (w h : Z) (e : MandelbrotEngine) :
  engine_init w h = Ok e -> view_ok e.
Proof.
  unfold engine_init, fdiv. run_M. split_div; [discriminate|].
  intros H. inversion H. subst e. unfold view_ok. fields.
  split; [lra|]. split; [reflexivity|]. split; reflexivity.
Qed.

Lemma run_view_ok (c : command) (e : MandelbrotEngine) :
  view_ok e -> view_ok (snd (run c e)).
Proof.
  intros (Hz & Ha & Hmin & Hmax).
  destruct c as [x y k|dx dy| |w h|f|f]; cbn [run].
  - pose proof (zoom_at_point_fields x y k e) as Hf. cbn zeta in Hf.
    destruct Hf as (Hw & Hh & Har & Hzo).
    assert (Hmm : min_iter (snd (zoom_at_point x y k e)) = min_iter e /\
                  max_max_iter (snd (zoom_at_point x y k e)) = max_max_iter e).
    { unfold zoom_at_point, get_bounds, fdiv. run_M.
      repeat split_div; fields; auto. }
    destruct Hmm as [Hmi Hma].
    unfold view_ok. rewrite Hw, Hh, Har, Hmi, Hma.
    repeat split; try assumption;
      destruct Hzo as [-> | ->]; try lra; apply clamp_zoom_range.
  - pose proof (pan_fields dx dy e) as Hf. cbn zeta in Hf.
    destruct Hf as (Hw & Hh & Har & Hzo).
    assert (Hmm : min_iter (snd (pan dx dy e)) = min_iter e /\
                  max_max_iter (snd (pan dx dy e)) = max_max_iter e).
    { unfold pan, get_bounds, fdiv. run_M.
      repeat split_div; fields; auto. }
    destruct Hmm as [Hmi Hma].
    unfold view_ok. rewrite Hw, Hh, Har, Hzo, Hmi, Hma. auto.
  - unfold reset_view. run_M. unfold view_ok. fields.
    split; [lra|]. split; [exact Ha|split; assumption].
  - unfold resize, fdiv. run_M. split_div; unfold view_ok; fields.
    + split; [exact Hz|]. split; [|split; assumption].
      intros Hh. exfalso. apply Hh. apply eq_IZR. assumption.
    + split; [exact Hz|]. split; [reflexivity|split; assumption].
  - unfold increase_iterations. run_M. unfold view_ok. fields. auto.
  - unfold decrease_iterations. run_M. unfold view_ok. fields. auto.
Qed.

Lemma run_all_view_ok (cs : list command) (e : MandelbrotEngine) :
  view_ok e -> view_ok (run_all cs e).
Proof.
  revert e. induction cs as [|c cs IH]; intros e He; cbn.
  - exact He.
  - apply IH, run_view_ok, He.
Qed.

(** ** The zoom limits *)

(** With a width, a height or an aspect ratio of zero one of the
    divisions of [zoom_at_point] raises, before any field is assigned. *)
Lemma zoom_at_point_raises (e : MandelbrotEngine) (x y : Z) (k : R) :
  aspect_ratio e = 0 \/ width e = 0%Z \/ height e = 0%Z ->
  zoom_at_point x y k e = (Raise ZeroDivisionError, e).
Proof.
  intros H. unfold zoom_at_point, get_bounds, fdiv. run_M.
  repeat split_div; try reflexivity.
  exfalso. destruct H as [H | [H | H]]; rewrite H in *; auto.
Qed.

Lemma resize_zero_width (w h : Z) (e0 : MandelbrotEngine) :
  engine_init w h = Ok e0 -> h <> 0%Z ->
  let e := run_all [Resize 0 h] e0 in
  width e = 0%Z /\ height e = h /\ aspect_ratio e = 0 /\ zoom e = 1.
Proof.
  intros Hinit Hh. rewrite (engine_init_Ok w h Hh) in Hinit.
  injection Hinit as <-. cbn [run_all fold_left run].
  unfold resize, fdiv. run_M.
  destruct (Req_dec_T (IZR h) 0) as [H0|_];
    [apply eq_IZR in H0; contradiction|].
  fields. repeat split; try reflexivity. field.
  intros H0. apply eq_IZR in H0. contradiction.
Qed.

(** C8 (as stated, refuted).  [resize(0, 600)] on a fresh 800 x 600 engine
    raises nothing and leaves a width and an aspect ratio of 0.  The
    request [zoom_at_point(400, 300, 1e20)] would drive the zoom past
    [1e15]; it is not clamped but rejected with [ZeroDivisionError], and
    the zoom stays 1. *)
Lemma zoom_request_rejected :
  exists e0, engine_init 800 600 = Ok e0 /\
    let e := run_all [Resize 0 600] e0 in
    1e15 < zoom e * 1e20 /\
    zoom_at_point 400 300 1e20 e = (Raise ZeroDivisionError, e) /\
    zoom (snd (zoom_at_point 400 300 1e20 e)) = 1.
Proof.
  eexists. split; [apply engine_init_Ok; lia|].
  match goal with
  | |- let e := run_all _ ?e0 in _ =>
      destruct (resize_zero_width 800 600 e0) as (Hw & _ & Ha & Hz);
      [apply engine_init_Ok; lia | lia |]
  end.
  cbv zeta in *.
  rewrite (zoom_at_point_raises _ 400 300 1e20 (or_introl Ha)).
  cbn [snd]. rewrite Hz. split; [lra|]. split; reflexivity.
Qed.

(** C8 (amended).  From a freshly constructed engine, every sequence of
    [zoom_at_point], [pan], [reset_view], [resize], [increase_iterations]
    and [decrease_iterations] calls, raising or not, leaves [zoom] in
    [[0.1, 1e15]].  In the state reached, while the width and the height
    are not zero, a further [zoom_at_point] with any factor that is a
    number is carried out, its zoom being the product clamped to that
    range; with a width or a height of zero the request is rejected with
    [ZeroDivisionError] and changes nothing. *)
Theorem zoom_stays_clamped (w h : Z) (e0 : MandelbrotEngine)
    (cs : list command) :
  engine_init w h = Ok e0 ->
  let e := run_all cs e0 in
  0.1 <= zoom e <= 1e15 /\
  (forall (x y : Z) (k : R), width e <> 0%Z -> height e <> 0%Z ->
     exists e', zoom_at_point x y k e = (Ok tt, e') /\
                zoom e' = Rmax 0.1 (Rmin (zoom e * k) 1e15)) /\
  (forall (x y : Z) (k : R), width e = 0%Z \/ height e = 0%Z ->
     zoom_at_point x y k e = (Raise ZeroDivisionError, e)).
Proof.
  intros Hinit e.
  assert (Hok : view_ok e).
  { apply run_all_view_ok. exact (engine_init_view_ok w h e0 Hinit). }
  destruct Hok as (Hz & Ha & _). split; [exact Hz|]. split.
  - intros x y k Hw Hh.
    assert (Hw' : IZR (width e) <> 0)
      by (intros H0; apply eq_IZR in H0; auto).
    assert (Hh' : IZR (height e) <> 0)
      by (intros H0; apply eq_IZR in H0; auto).
    assert (Har : aspect_ratio e <> 0).
    { rewrite (Ha Hh). unfold Rdiv. apply Rmult_integral_contrapositive.
      split; [exact Hw'|]. apply Rinv_neq_0_compat. exact Hh'. }
    eexists. split.
    + apply zoom_at_point_Ok; [lra | exact Har | exact Hw | exact Hh].
    + fields. apply clamp_zoom_max_min.
  - intros x y k Hzero. apply zoom_at_point_raises.
    destruct (Z.eq_dec (height e) 0%Z) as [Hh|Hh]; [auto|].
    destruct Hzero as [Hw|Hh0]; [|contradiction].
    left. rewrite (Ha Hh), Hw. unfold Rdiv. apply Rmult_0_l.
Qed.

Lemma zoom_stays_clamped_witness :
  let e :=
    run_all [ZoomAtPoint 400 300 1e20; Pan 3 4; Resize 640 480;
             ZoomAtPoint 0 0 0; IncreaseIterations 50; ResetView;
             DecreaseIterations 50]
      (mkEngine 800 600 (-0.5) 0 1 (IZR 800 / IZR 600) 100 50 2000
         None None 0 (800 * 600)) in
  0.1 <= zoom e <= 1e15 /\
  (forall (x y : Z) (k : R), width e <> 0%Z -> height e <> 0%Z ->
     exists e', zoom_at_point x y k e = (Ok tt, e') /\
                zoom e' = Rmax 0.1 (Rmin (zoom e * k) 1e15)) /\
  (forall (x y : Z) (k : R), width e = 0%Z \/ height e = 0%Z ->
     zoom_at_point x y k e = (Raise ZeroDivisionError, e)).
Proof.
  apply (zoom_stays_clamped 800 600). apply engine_init_Ok. lia.
Defined.

(** ** The zoom round trip *)






(** ** [generate] and its one-entry cache *)

Lemma generate_hit (e : MandelbrotEngine) (held : grid) :
  cache_hit e = Some held -> generate e = (Ok held, e).
Proof. intros H. unfold generate. run_M. rewrite H. reflexivity. Qed.

Lemma generate_miss (e : MandelbrotEngine) :
  cache_hit e = None ->
  generate e =
  match get_bounds e with
  | Ok (x_min, x_max, y_min, y_max) =>
      match adaptive_iterations e (zoom e) with
      | Ok adaptive_iter =>
          match mandelbrot_calculation (height e) (width e)
                  x_min x_max y_min y_max
                  (Z.min (max_iter e) adaptive_iter) with
          | Ok result => (Ok result, rendered e result)
          | Raise x => (Raise x, e)
          end
      | Raise x => (Raise x, e)
      end
  | Raise x => (Raise x, e)
  end.
Proof.
  intros H. unfold generate. run_M. rewrite H.
  destruct (get_bounds e) as [[[[x_min x_max] y_min] y_max]|x];
    [|reflexivity].
  destruct (adaptive_iterations e (zoom e)) as [a|x]; [|reflexivity].
  destruct (mandelbrot_calculation _ _ _ _ _ _ _) as [r|x]; reflexivity.
Qed.

(** [generate] either raises and changes nothing, returns the held grid
    and changes nothing, or computes and records the result. *)
Lemma generate_cases (e : MandelbrotEngine) :
  (exists x, generate e = (Raise x, e)) \/
  (exists held, cache_hit e = Some held /\ generate e = (Ok held, e)) \/
  (exists result, cache_hit e = None /\
                  generate e = (Ok result, rendered e result)).
Proof.
  destruct (cache_hit e) as [held|] eqn:Hc.
  - right. left. exists held. split; [reflexivity|]. apply generate_hit, Hc.
  - rewrite (generate_miss e Hc).
    destruct (get_bounds e) as [[[[x_min x_max] y_min] y_max]|x];
      [|left; eexists; reflexivity].
    destruct (adaptive_iterations e (zoom e)) as [a|x];
      [|left; eexists; reflexivity].
    destruct (mandelbrot_calculation _ _ _ _ _ _ _) as [r|x];
      [|left; eexists; reflexivity].
    right. right. exists r. split; reflexivity.
Qed.

Lemma cache_hit_rendered (e : MandelbrotEngine) (result : grid) :
  cache_hit (rendered e result) = Some result.
Proof.
  unfold cache_hit, rendered, current_params. fields.
  destruct (decide _) as [_|Hne]; [reflexivity|contradiction].
Qed.

Lemma cache_hit_same (e1 e2 : MandelbrotEngine) :
  current_params e2 = current_params e1 ->
  last_params e2 = last_params e1 ->
  cached_result e2 = cached_result e1 ->
  cache_hit e2 = cache_hit e1.
Proof. intros Hp Hl Hc. unfold cache_hit. rewrite Hp, Hl, Hc. reflexivity. Qed.

Lemma cache_hit_paired (e : MandelbrotEngine) :
  cache_paired e ->
  (cache_hit e = None <-> last_params e <> Some (current_params e)).
Proof.
  intros Hp. unfold cache_hit.
  destruct (decide (Some (current_params e) = last_params e)) as [Heq|Hne].
  - split.
    + intros Hc. apply Hp in Hc. congruence.
    + intros Hn. congruence.
  - split; [congruence|reflexivity].
Qed.

Lemma run_cache_paired (c : command) (e : MandelbrotEngine) :
  cache_paired e -> cache_paired (snd (run c e)).
Proof.
  unfold cache_paired. intros Hp.
  destruct c as [x y k|dx dy| |w h|f|f]; cbn [run].
  - unfold zoom_at_point, get_bounds, fdiv. run_M.
    repeat split_div; fields; exact Hp.
  - unfold pan, get_bounds, fdiv. run_M.
    repeat split_div; fields; exact Hp.
  - unfold reset_view. run_M. fields. tauto.
  - unfold resize, fdiv. run_M. split_div; fields; [exact Hp|tauto].
  - unfold increase_iterations. run_M. fields. tauto.
  - unfold decrease_iterations. run_M. fields. tauto.
Qed.

Lemma reachable_cache_paired (e : MandelbrotEngine) :
  reachable e -> cache_paired e.
Proof.
  induction 1 as [w h e Hinit|c e _ IH|e _ IH].
  - unfold engine_init, fdiv in Hinit. run_M.
    destruct (Req_dec_T (IZR h) 0); [discriminate|].
    inversion Hinit. unfold cache_paired. fields. tauto.
  - apply run_cache_paired, IH.
  - destruct (generate_cases e) as [[x ->]|[(held & _ & ->)|(r & _ & ->)]];
      try exact IH.
    unfold cache_paired, rendered. fields. split; discriminate.
Qed.

Lemma invalidated (e : MandelbrotEngine) :
  last_params (snd (reset_view e)) = None /\
  (forall f, last_params (snd (increase_iterations f e)) = None) /\
  (forall f, last_params (snd (decrease_iterations f e)) = None) /\
  (forall w h, h <> 0%Z -> last_params (snd (resize w h e)) = None).
Proof.
  split; [reflexivity|]. split; [reflexivity|]. split; [reflexivity|].
  intros w h Hh. unfold resize, fdiv. run_M.
  destruct (Req_dec_T (IZR h) 0) as [H0|_];
    [apply eq_IZR in H0; contradiction|].
  reflexivity.
Qed.

(** C7 (amended).  In every reachable state, when a [generate] call
    returns, an immediately following call, and any later call that finds
    the parameter tuple and the cache slot as that call left them, returns
    the same grid and changes nothing ([render_count] included).  A
    returning call computed, and incremented [render_count], exactly when
    the tuple differed (exact equality) from [last_params]; and
    [reset_view], [increase_iterations], [decrease_iterations] and a
    completed [resize] set [last_params] to [None], so the call after
    them computes even when the tuple's values are unchanged. *)
Theorem generate_twice (e e1 : MandelbrotEngine) (g : grid) :
  reachable e ->
  generate e = (Ok g, e1) ->
  generate e1 = (Ok g, e1) /\
  (forall e2,
      current_params e2 = current_params e1 ->
      last_params e2 = last_params e1 ->
      cached_result e2 = cached_result e1 ->
      generate e2 = (Ok g, e2)) /\
  (last_params e <> Some (current_params e) <->
   render_count e1 = (render_count e + 1)%Z) /\
  (last_params e = Some (current_params e) ->
   e1 = e /\ cached_result e = Some g) /\
  last_params (snd (reset_view e1)) = None /\
  (forall f, last_params (snd (increase_iterations f e1)) = None) /\
  (forall f, last_params (snd (decrease_iterations f e1)) = None) /\
  (forall w h, h <> 0%Z -> last_params (snd (resize w h e1)) = None).
Proof.
  intros Hreach Hgen.
  cut ((generate e1 = (Ok g, e1) /\
        (forall e2,
            current_params e2 = current_params e1 ->
            last_params e2 = last_params e1 ->
            cached_result e2 = cached_result e1 ->
            generate e2 = (Ok g, e2)) /\
        (last_params e <> Some (current_params e) <->
         render_count e1 = (render_count e + 1)%Z) /\
        (last_params e = Some (current_params e) ->
         e1 = e /\ cached_result e = Some g))).
  { intros (H1 & H2 & H3 & H4). pose proof (invalidated e1) as H5.
    tauto. }
  pose proof (cache_hit_paired e (reachable_cache_paired e Hreach)) as Hpair.
  assert (Hhit1 : cache_hit e1 = Some g).
  { destruct (generate_cases e) as [[x Hx]|[(held & Hc & Hh)|(r & Hc & Hr)]].
    - rewrite Hx in Hgen. discriminate.
    - rewrite Hh in Hgen. inversion Hgen. subst. exact Hc.
    - rewrite Hr in Hgen. inversion Hgen. subst. apply cache_hit_rendered. }
  split; [apply generate_hit, Hhit1|].
  split.
  { intros e2 Hp Hl Hc. apply generate_hit.
    rewrite (cache_hit_same e1 e2 Hp Hl Hc). exact Hhit1. }
  destruct (generate_cases e) as [[x Hx]|[(held & Hc & Hh)|(r & Hc & Hr)]].
  - rewrite Hx in Hgen. discriminate.
  - rewrite Hh in Hgen. inversion Hgen. subst held e1.
    assert (Hl : last_params e = Some (current_params e)).
    { destruct (decide (last_params e = Some (current_params e))) as [H|H];
        [exact H|]. apply Hpair in H. congruence. }
    split.
    + split; [contradiction|lia].
    + intros _. split; [reflexivity|].
      unfold cache_hit in Hc. rewrite Hl in Hc.
      destruct (decide (Some (current_params e) = Some (current_params e)));
        [exact Hc|contradiction].
  - rewrite Hr in Hgen. inversion Hgen. subst r e1.
    apply Hpair in Hc. split.
    + split; [intros _; unfold rendered; fields; reflexivity|].
      intros _. exact Hc.
    + intros Hl. contradiction.
Qed.

Lemma adaptive_iterations_spec_range (z : R) :
  (50 <= adaptive_iterations_spec z <= 2000)%Z.
Proof. unfold adaptive_iterations_spec. lia. Qed.

(** With a usable view and at least two rows and columns, a [generate]
    call that misses the cache computes and returns. *)
Lemma generate_computes (e : MandelbrotEngine) :
  min_iter e = 50%Z -> max_max_iter e = 2000%Z ->
  0 < zoom e -> aspect_ratio e <> 0 ->
  (2 <= width e)%Z -> (2 <= height e)%Z ->
  cache_hit e = None ->
  exists x_min x_max y_min y_max g,
    get_bounds e = Ok (x_min, x_max, y_min, y_max) /\
    adaptive_iterations e (zoom e) = Ok (adaptive_iterations_spec (zoom e)) /\
    mandelbrot_calculation (height e) (width e) x_min x_max y_min y_max
      (Z.min (max_iter e) (adaptive_iterations_spec (zoom e))) = Ok g /\
    generate e = (Ok g, rendered e g).
Proof.
  intros Hmin Hmax Hz Ha Hw Hh Hc.
  pose proof (get_bounds_Ok e) as Hb.
  pose proof (adaptive_iterations_nonneg e (zoom e) Hmin Hmax) as Had.
  rewrite (generate_miss e Hc), Hb, Had by lra.
  match goal with
  | |- context [mandelbrot_calculation ?h ?w ?a ?b ?c ?d ?m] =>
      destruct (mandelbrot_total h w a b c d m) as [g Hg]; try lia;
      exists a, b, c, d, g; rewrite Hg
  end.
  repeat split; reflexivity.
Qed.

(** C10.  A [generate] call that computes does not hand [max_iter] to
    [mandelbrot_calculation] but [min(max_iter, adaptive_iterations(zoom))]:
    every entry of the grid lies between 0 and that minimum and equals it
    exactly for the pixels whose loop did not diverge, while the cache key
    stored in [last_params] carries [max_iter] itself.  With
    [max_iter = 100] and [zoom = 1.0], as after construction, the minimum
    is [adaptive_iterations(1.0) = 59 < 100]. *)
Theorem generate_caps_at_adaptive (e : MandelbrotEngine) :
  min_iter e = 50%Z -> max_max_iter e = 2000%Z ->
  0 < zoom e -> aspect_ratio e <> 0 ->
  (2 <= width e)%Z -> (2 <= height e)%Z -> (0 <= max_iter e)%Z ->
  cache_hit e = None ->
  exists x_min x_max y_min y_max adaptive_iter g e1,
    get_bounds e = Ok (x_min, x_max, y_min, y_max) /\
    adaptive_iterations e (zoom e) = Ok adaptive_iter /\
    let actual_iter := Z.min (max_iter e) adaptive_iter in
    generate e = (Ok g, e1) /\
    mandelbrot_calculation (height e) (width e) x_min x_max y_min y_max
      actual_iter = Ok g /\
    (forall i j, (0 <= i < height e)%Z -> (0 <= j < width e)%Z ->
       exists c v,
         pixel_point (height e) (width e) x_min x_max y_min y_max i j = Ok c /\
         cell g i j = Some v /\
         (0 <= v <= actual_iter)%Z /\
         let x := iterate (Z.to_nat actual_iter) 0 (0, 0) c in
         (v = actual_iter <-> x = Completed \/ x = Periodic)) /\
    last_params e1 =
      Some (x_center e, y_center e, zoom e, width e, height e, max_iter e) /\
    (zoom e = 1 -> max_iter e = 100%Z ->
     actual_iter = 59%Z /\ (actual_iter < max_iter e)%Z).
Proof.
  intros Hmin Hmax Hz Ha Hw Hh Hm Hc.
  destruct (generate_computes e Hmin Hmax Hz Ha Hw Hh Hc)
    as (x_min & x_max & y_min & y_max & g & Hb & Had & Hg & Hgen).
  exists x_min, x_max, y_min, y_max, (adaptive_iterations_spec (zoom e)), g,
    (rendered e g).
  pose proof (adaptive_iterations_spec_range (zoom e)) as Hr.
  split; [exact Hb|]. split; [exact Had|]. cbn zeta.
  split; [exact Hgen|]. split; [exact Hg|]. split.
  { intros i j Hi Hj.
    destruct (grid_entries (height e) (width e) x_min x_max y_min y_max
                (Z.min (max_iter e) (adaptive_iterations_spec (zoom e))))
      as (g' & Hg' & _ & _ & Hcells); try lia.
    rewrite Hg in Hg'. inversion Hg'. subst g'.
    exact (Hcells i j Hi Hj). }
  split; [reflexivity|].
  intros Hz1 Hm100.
  assert (H59 : adaptive_iterations_spec (zoom e) = 59%Z).
  { pose proof (adaptive_iterations_at_1 e Hmin Hmax) as H1.
    rewrite <- Hz1 in H1. rewrite Had in H1. inversion H1. reflexivity. }
  rewrite H59, Hm100. split; reflexivity.
Qed.

Lemma fresh_engine (w h : Z) :
  (2 <= w)%Z -> (2 <= h)%Z ->
  let e := mkEngine w h (-0.5) 0 1 (IZR w / IZR h) 100 50 2000
             None None 0 (w * h) in
  engine_init w h = Ok e /\ reachable e /\
  min_iter e = 50%Z /\ max_max_iter e = 2000%Z /\ 0 < zoom e /\
  aspect_ratio e <> 0 /\ cache_hit e = None.
Proof.
  intros Hw Hh e.
  assert (Hinit : engine_init w h = Ok e) by (apply engine_init_Ok; lia).
  split; [exact Hinit|]. split; [exact (reach_init w h e Hinit)|].
  subst e. fields. split; [reflexivity|]. split; [reflexivity|].
  split; [lra|]. split; [|reflexivity].
  assert (0 < IZR w) by (apply IZR_lt; lia).
  assert (0 < IZR h) by (apply IZR_lt; lia).
  assert (0 < IZR w / IZR h) by (apply Rdiv_lt_0_compat; assumption).
  lra.
Qed.

Lemma generate_caps_at_adaptive_witness :
  let e := mkEngine 4 3 (-0.5) 0 1 (IZR 4 / IZR 3) 100 50 2000
             None None 0 (4 * 3) in
  exists x_min x_max y_min y_max adaptive_iter g e1,
    get_bounds e = Ok (x_min, x_max, y_min, y_max) /\
    adaptive_iterations e (zoom e) = Ok adaptive_iter /\
    let actual_iter := Z.min (max_iter e) adaptive_iter in
    generate e = (Ok g, e1) /\
    mandelbrot_calculation (height e) (width e) x_min x_max y_min y_max
      actual_iter = Ok g /\
    (forall i j, (0 <= i < height e)%Z -> (0 <= j < width e)%Z ->
       exists c v,
         pixel_point (height e) (width e) x_min x_max y_min y_max i j = Ok c /\
         cell g i j = Some v /\
         (0 <= v <= actual_iter)%Z /\
         let x := iterate (Z.to_nat actual_iter) 0 (0, 0) c in
         (v = actual_iter <-> x = Completed \/ x = Periodic)) /\
    last_params e1 =
      Some (x_center e, y_center e, zoom e, width e, height e, max_iter e) /\
    (zoom e = 1 -> max_iter e = 100%Z ->
     actual_iter = 59%Z /\ (actual_iter < max_iter e)%Z).
Proof.
  intros e.
  destruct (fresh_engine 4 3) as (_ & _ & Hmin & Hmax & Hz & Ha & Hc);
    [lia | lia |].
  apply (generate_caps_at_adaptive e Hmin Hmax Hz Ha); subst e; fields;
    first [lia | exact Hc].
Defined.

Lemma escape_count_origin (m : Z) :
  (22 <= m < 2147483648)%Z -> escape_count m (0, 0) = m.
Proof.
  intros Hm. unfold escape_count. rewrite iterate_origin by lia.
  cbn [assigned]. apply int32_small. lia.
Qed.

(** In a fresh 4 x 3 engine the pixel in row 1, column 2 lies at [c = 0];
    the first [generate] gives it 59, not [max_iter = 100]. *)
Example fresh_engine_origin_pixel :
  exists e g e1,
    engine_init 4 3 = Ok e /\ max_iter e = 100%Z /\
    generate e = (Ok g, e1) /\ cell g 1 2 = Some 59%Z.
Proof.
  destruct (fresh_engine 4 3) as (Hinit & _ & Hmin & Hmax & Hz & Ha & Hc);
    [lia | lia |].
  set (e := mkEngine _ _ _ _ _ _ _ _ _ _ _ _ _) in *.
  exists e.
  pose proof (generate_miss e Hc) as Hgen.
  rewrite (get_bounds_Ok e) in Hgen by (try exact Ha; lra).
  assert (Had : adaptive_iterations e (zoom e) = Ok 59%Z)
    by (apply adaptive_iterations_at_1; assumption).
  rewrite Had in Hgen.
  change (Z.min (max_iter e) 59) with 59%Z in Hgen.
  match type of Hgen with
  | context [mandelbrot_calculation ?h ?w ?a ?b ?c ?d ?m] =>
      destruct (mandelbrot_total h w a b c d m) as [g Hg];
      [subst e; fields; lia ..|];
      rewrite Hg in Hgen;
      destruct (pixel_point_total h w a b c d 1 2) as [pt Hpt];
      [subst e; fields; lia ..|];
      assert (Hv : cell g 1 2 = Some (escape_count m pt))
        by (apply (mandelbrot_cell h w a b c d m g 1 2 pt Hg);
            first [exact Hpt | subst e; fields; lia])
  end.
  exists g, (rendered e g).
  split; [exact Hinit|]. split; [reflexivity|]. split; [exact Hgen|].
  rewrite Hv. f_equal.
  assert (Hc0 : pt = (0, 0)).
  { revert Hpt. subst e. fields.
    unfold pixel_point, pixel_to_plane.
    destruct (Req_dec_T (IZR (4 - 1)) 0) as [H0|_];
      [apply eq_IZR in H0; lia|].
    destruct (Req_dec_T (IZR (3 - 1)) 0) as [H0|_];
      [apply eq_IZR in H0; lia|].
    run_M. intros H. inversion H.
    change (4 - 1)%Z with 3%Z. change (3 - 1)%Z with 2%Z.
    f_equal; field_simplify; lra. }
  rewrite Hc0. apply escape_count_origin. lia.
Qed.

(** C7 (as stated, refuted).  In a fresh 4 x 3 engine, [generate],
    [reset_view], [generate]: the tuple is the same at both [generate]
    calls, yet the second one computes again and [render_count] goes
    from 1 to 2. *)
Lemma reset_view_forces_render :
  exists e g1 e1 g2 e2,
    engine_init 4 3 = Ok e /\
    generate e = (Ok g1, e1) /\
    current_params (snd (reset_view e1)) = current_params e1 /\
    generate (snd (reset_view e1)) = (Ok g2, e2) /\
    render_count e1 = 1%Z /\ render_count e2 = 2%Z.
Proof.
  destruct (fresh_engine 4 3) as (Hinit & _ & Hmin & Hmax & Hz & Ha & Hc);
    [lia | lia |].
  set (e := mkEngine _ _ _ _ _ _ _ _ _ _ _ _ _) in *.
  destruct (generate_computes e Hmin Hmax Hz Ha) as
    (x_min & x_max & y_min & y_max & g1 & _ & _ & _ & Hgen1);
    [subst e; fields; lia | subst e; fields; lia | exact Hc |].
  set (e1 := rendered e g1) in *.
  destruct (generate_computes (snd (reset_view e1))) as
    (x_min' & x_max' & y_min' & y_max' & g2 & _ & _ & _ & Hgen2);
    try (subst e1 e; unfold reset_view, rendered; run_M; fields;
         first [reflexivity | lra | lia | exact Ha]).
  exists e, g1, e1, g2, (rendered (snd (reset_view e1)) g2).
  split; [exact Hinit|]. split; [exact Hgen1|].
  split; [reflexivity|]. split; [exact Hgen2|].
  split; reflexivity.
Qed.

Lemma generate_twice_witness :
  let e := mkEngine 4 3 (-0.5) 0 1 (IZR 4 / IZR 3) 100 50 2000
             None None 0 (4 * 3) in
  exists g e1,
    generate e = (Ok g, e1) /\
    generate e1 = (Ok g, e1) /\
    (forall e2,
        current_params e2 = current_params e1 ->
        last_params e2 = last_params e1 ->
        cached_result e2 = cached_result e1 ->
        generate e2 = (Ok g, e2)) /\
    (last_params e <> Some (current_params e) <->
     render_count e1 = (render_count e + 1)%Z) /\
    (last_params e = Some (current_params e) ->
     e1 = e /\ cached_result e = Some g) /\
    last_params (snd (reset_view e1)) = None /\
    (forall f, last_params (snd (increase_iterations f e1)) = None) /\
    (forall f, last_params (snd (decrease_iterations f e1)) = None) /\
    (forall w h, h <> 0%Z -> last_params (snd (resize w h e1)) = None).
Proof.
  intros e.
  destruct (fresh_engine 4 3) as (_ & Hreach & Hmin & Hmax & Hz & Ha & Hc);
    [lia | lia |].
  destruct (generate_computes e Hmin Hmax Hz Ha) as
    (x_min & x_max & y_min & y_max & g & _ & _ & _ & Hgen);
    [subst e; fields; lia | subst e; fields; lia | exact Hc |].
  exists g, (rendered e g). split; [exact Hgen|].
  exact (generate_twice e (rendered e g) g Hreach Hgen).
Defined.

(** ** Colours *)

Lemma clamp_channel_range (v : Z) : (0 <= clamp_channel v <= 255)%Z.
Proof. unfold clamp_channel. lia. Qed.

Lemma clamped_ok (r g b : Z) :
  channels_ok (clamp_channel r, clamp_channel g, clamp_channel b).
Proof.
  unfold channels_ok.
  pose proof (clamp_channel_range r). pose proof (clamp_channel_range g).
  pose proof (clamp_channel_range b). auto.
Qed.

Lemma py_int_unit (x : R) : 0 <= x <= 1 -> (0 <= py_int (x * 255) <= 255)%Z.
Proof.
  intros Hx. rewrite py_int_nonneg by lra. split.
  - apply Int_part_ge. lra.
  - apply Int_part_le. lra.
Qed.

Lemma hue_sector (h : R) :
  0 <= h -> 0 <= h * 6 - IZR (py_int (h * 6)) < 1.
Proof.
  intros Hh. rewrite py_int_nonneg by lra.
  destruct (base_Int_part (h * 6)) as [Hlo Hhi]. lra.
Qed.

Lemma colorsys_unit (h s v : R) :
  0 <= h -> 0 <= s <= 1 -> 0 <= v <= 1 ->
  let '(r, g, b) := colorsys_hsv_to_rgb h s v in
  0 <= r <= 1 /\ 0 <= g <= 1 /\ 0 <= b <= 1.
Proof.
  intros Hh Hs Hv. unfold colorsys_hsv_to_rgb.
  destruct (Reqb s 0); [auto|].
  pose proof (hue_sector h Hh) as Hf.
  set (f := h * 6 - IZR (py_int (h * 6))) in *.
  assert (Hp : 0 <= v * (1 - s) <= 1) by nra.
  assert (Hq : 0 <= v * (1 - s * f) <= 1) by nra.
  assert (Ht : 0 <= v * (1 - s * (1 - f)) <= 1) by nra.
  repeat match goal with
         | |- context [(?a =? ?b)%Z] => destruct (a =? b)%Z
         end; auto.
Qed.

Lemma hsv_to_rgb_ok (h s v : R) :
  0 <= h -> 0 <= s <= 1 -> 0 <= v <= 1 -> channels_ok (hsv_to_rgb h s v).
Proof.
  intros Hh Hs Hv. unfold hsv_to_rgb.
  pose proof (colorsys_unit h s v Hh Hs Hv) as H.
  destruct (colorsys_hsv_to_rgb h s v) as [[r g] b].
  destruct H as (Hr & Hg & Hb). unfold channels_ok.
  auto using py_int_unit.
Qed.

Lemma fmod1_range (x : R) : 0 <= fmod1 x < 1.
Proof. unfold fmod1. destruct (base_fp x). lra. Qed.

Ltac clamped :=
  match goal with
  | |- channels_ok (match ?t with _ => _ end) =>
      destruct t as [[? ?] ?]; apply clamped_ok
  | |- channels_ok _ => apply clamped_ok
  end.

Section PaletteRange.

Variable self : ColorPalette.
Variables t intensity : R.
Hypothesis Ht : 0 <= t.
Hypothesis Hi : 0 <= intensity <= 1.

Lemma rainbow_ok : channels_ok (rainbow_color self t intensity).
Proof.
  unfold rainbow_color. cbv zeta.
  pose proof (SIN_bound (t * PI * 4 + animation_time self * 2)).
  pose proof (SIN_bound (t * PI * 2)).
  apply hsv_to_rgb_ok; [apply fmod1_range | lra | nra].
Qed.

Lemma electric_ok : channels_ok (electric_color self t intensity).
Proof.
  unfold electric_color. cbv zeta.
  pose proof (SIN_bound (t * PI * 6 + animation_time self * 10)).
  pose proof (SIN_bound (t * PI * 20 + animation_time self * 15)).
  apply hsv_to_rgb_ok; [apply fmod1_range | |].
  - unfold Rmin. destruct (Rle_dec _ _); lra.
  - unfold Rmin. destruct (Rle_dec _ _); [lra|]. split; [|lra].
    apply Rmult_le_pos; lra.
Qed.

Lemma neon_ok : channels_ok (neon_color self t intensity).
Proof.
  unfold neon_color. cbv zeta.
  pose proof (SIN_bound (t * PI * 8 + animation_time self * 6)).
  apply hsv_to_rgb_ok; [apply fmod1_range | lra |].
  unfold Rmin. destruct (Rle_dec _ _); [lra|]. split; [|lra].
  apply Rmult_le_pos; lra.
Qed.

Lemma color_func_ok (k : PaletteType) :
  channels_ok (color_func self k t intensity).
Proof.
  destruct k; cbn [color_func].
  - apply rainbow_ok.
  - unfold ocean_color. cbv zeta. clamped.
  - unfold fire_color. cbv zeta. clamped.
  - apply electric_ok.
  - unfold cosmic_color. cbv zeta. clamped.
  - unfold vintage_color. cbv zeta. clamped.
  - apply neon_ok.
  - unfold ice_color. cbv zeta. clamped.
  - unfold sunset_color. cbv zeta. clamped.
  - unfold matrix_color. cbv zeta. clamped.
Qed.

End PaletteRange.

Lemma compute_color_sound (p : ColorPalette) (v m : Z) (c : rgb) :
  compute_color p v m = Ok c ->
  ((0 <= v)%Z -> channels_ok c) /\ ((m <= v)%Z -> c = (0, 0, 0)%Z).
Proof.
  unfold compute_color. destruct (Z.leb_spec m v) as [Hle|Hlt].
  - intros H. inversion H. split; [|reflexivity].
    intros _. unfold channels_ok. lia.
  - unfold fdiv. run_M.
    destruct (Req_dec_T (IZR m) 0); [discriminate|].
    intros H. inversion H. split; [|lia]. intros Hv.
    assert (Hm : 0 < IZR m) by (apply IZR_lt; lia).
    assert (H0 : 0 <= IZR v) by (apply IZR_le; lia).
    assert (Ht : 0 <= IZR v / IZR m).
    { apply Rmult_le_pos; [exact H0|]. left. apply Rinv_0_lt_compat, Hm. }
    destruct (Rle_dec 0 (IZR v / IZR m)) as [_|Hn]; [|contradiction].
    apply color_func_ok; [exact Ht|].
    pose proof (sqrt_pos (IZR v / IZR m)).
    unfold Rmin. destruct (Rle_dec _ _); lra.
Qed.

Lemma compute_color_total (p : ColorPalette) (v m : Z) :
  (0 <= v)%Z -> exists c, compute_color p v m = Ok c.
Proof.
  intros Hv. unfold compute_color. destruct (Z.leb_spec m v) as [Hle|Hlt].
  - eexists. reflexivity.
  - assert (Hm : 0 < IZR m) by (apply IZR_lt; lia).
    unfold fdiv. run_M.
    destruct (Req_dec_T (IZR m) 0); [lra|].
    eexists. reflexivity.
Qed.

Lemma get_color_hit (p : ColorPalette) (v m : Z) (c : rgb) :
  color_cache p !! cache_key p v m = Some c ->
  get_color v m p = (Ok c, p).
Proof. intros H. unfold get_color. run_M. rewrite H. reflexivity. Qed.

Lemma get_color_miss (p : ColorPalette) (v m : Z) :
  color_cache p !! cache_key p v m = None ->
  get_color v m p =
  match compute_color p v m with
  | Ok c =>
      (Ok c,
       if (size (color_cache p) <? cache_size p)%nat
       then set_color_cache (<[cache_key p v m := c]> (color_cache p)) p
       else p)
  | Raise x => (Raise x, p)
  end.
Proof.
  intros H. unfold get_color. run_M. rewrite H.
  destruct (compute_color p v m) as [c|x]; [|reflexivity].
  destruct (size (color_cache p) <? cache_size p)%nat; reflexivity.
Qed.

Lemma get_color_sound (p : ColorPalette) (v m : Z) :
  cache_sound p -> cache_sound (snd (get_color v m p)).
Proof.
  intros Hp.
  destruct (color_cache p !! cache_key p v m) as [c|] eqn:Hk.
  - rewrite (get_color_hit p v m c Hk). exact Hp.
  - rewrite (get_color_miss p v m Hk).
    destruct (compute_color p v m) as [c|x] eqn:Hc; [|exact Hp].
    destruct (size (color_cache p) <? cache_size p)%nat; [|exact Hp].
    cbn [snd]. intros v' m' i' b' c'. cbn [color_cache set_color_cache].
    rewrite lookup_insert. unfold cache_key. case_decide as Heq.
    + intros H. inversion H. subst c'. inversion Heq. subst.
      exact (compute_color_sound p v' m' c Hc).
    + apply Hp.
Qed.

Lemma get_color_answer (p : ColorPalette) (v m : Z) (c : rgb)
    (p' : ColorPalette) :
  cache_sound p -> get_color v m p = (Ok c, p') ->
  ((0 <= v)%Z -> channels_ok c) /\ ((m <= v)%Z -> c = (0, 0, 0)%Z).
Proof.
  intros Hp.
  destruct (color_cache p !! cache_key p v m) as [c0|] eqn:Hk.
  - rewrite (get_color_hit p v m c0 Hk). intros H. inversion H. subst.
    exact (Hp _ _ _ _ _ Hk).
  - rewrite (get_color_miss p v m Hk).
    destruct (compute_color p v m) as [c0|x] eqn:Hc; [|discriminate].
    intros H. inversion H. subst. exact (compute_color_sound p v m c Hc).
Qed.

Lemma get_color_returns (p : ColorPalette) (v m : Z) :
  (0 <= v)%Z -> exists c p', get_color v m p = (Ok c, p').
Proof.
  intros Hv.
  destruct (color_cache p !! cache_key p v m) as [c0|] eqn:Hk.
  - rewrite (get_color_hit p v m c0 Hk). eauto.
  - rewrite (get_color_miss p v m Hk).
    destruct (compute_color_total p v m Hv) as [c ->]. eauto.
Qed.

Lemma for_each_M_preserves {S A B : Type} (P : S -> Prop) (f : A -> M S B)
    (xs : list A) :
  (forall x s, P s -> P (snd (f x s))) ->
  forall s, P s -> P (snd (for_each_M f xs s)).
Proof.
  intros Hf. induction xs as [|x xs IH]; intros s Hs; cbn [for_each_M].
  - exact Hs.
  - run_M. pose proof (Hf x s Hs) as Hx.
    destruct (f x s) as [[y|e] s1]; cbn [snd] in Hx; [|exact Hx].
    pose proof (IH s1 Hx) as Hxs.
    destruct (for_each_M f xs s1) as [[ys|e] s2]; exact Hxs.
Qed.

Lemma apply_colors_sound (fractal_data : grid) (p : ColorPalette) :
  cache_sound p -> cache_sound (snd (apply_colors fractal_data p)).
Proof.
  intros Hp. unfold apply_colors. run_M.
  destruct (np_max (concat fractal_data)) as [mx|x]; [|exact Hp].
  match goal with
  | |- context [for_each_M ?f ?xs ?s] =>
      assert (Hloop : cache_sound (snd (for_each_M f xs s)));
      [ apply for_each_M_preserves; [|exact Hp];
        intros x s0 Hs; pose proof (get_color_sound s0 x mx Hs) as Hg;
        destruct (get_color x mx s0) as [[c|e] s1]; exact Hg
      | destruct (for_each_M f xs s) as [[cm|e] s']; exact Hloop ]
  end.
Qed.

Lemma reachable_cache_sound (p : ColorPalette) :
  palette_reachable p -> cache_sound p.
Proof.
  induction 1 as [|p _ IH|v m p _ IH|d p _ IH].
  - intros v m i b c H. cbn in H. rewrite lookup_empty in H. discriminate.
  - unfold next_palette. run_M. cbn [snd].
    intros v m i b c H. cbn in H. rewrite lookup_empty in H. discriminate.
  - apply get_color_sound, IH.
  - apply apply_colors_sound, IH.
Qed.

(** C9.  In every reachable palette state, whatever the selected palette
    and [animation_time], [get_color(v, m)] with [v >= m] returns
    [(0, 0, 0)]. *)
Theorem black_at_cap (p : ColorPalette) (v m : Z) :
  palette_reachable p -> (m <= v)%Z ->
  exists p', get_color v m p = (Ok (0, 0, 0)%Z, p').
Proof.
  intros Hreach Hle. pose proof (reachable_cache_sound p Hreach) as Hp.
  destruct (color_cache p !! cache_key p v m) as [c|] eqn:Hk.
  - rewrite (get_color_hit p v m c Hk).
    destruct (Hp _ _ _ _ _ Hk) as [_ Hblack]. rewrite (Hblack Hle).
    eexists. reflexivity.
  - rewrite (get_color_miss p v m Hk). unfold compute_color.
    destruct (Z.leb_spec m v); [|lia]. eexists. reflexivity.
Qed.

Lemma black_at_cap_witness :
  exists p',
    get_color 59 59 (snd (get_color 12 59 (snd (next_palette palette_init))))
    = (Ok (0, 0, 0)%Z, p').
Proof.
  apply black_at_cap; [|lia].
  apply palette_reach_get, palette_reach_next, palette_reach_init.
Defined.

(** C5.  For each of the ten palettes, every [t] and [intensity] in
    [[0, 1]] and every [animation_time], the selected palette function
    returns channels in [[0, 255]]; and in every reachable palette state
    [get_color] on an iteration count [v >= 0] returns a colour whose
    channels are in [[0, 255]]. *)
Theorem channels_in_range (self : ColorPalette) (k : PaletteType)
    (t intensity : R) (v m : Z) :
  0 <= t <= 1 -> 0 <= intensity <= 1 ->
  palette_reachable self -> (0 <= v)%Z ->
  channels_ok (color_func self k t intensity) /\
  exists c p', get_color v m self = (Ok c, p') /\ channels_ok c.
Proof.
  intros Ht Hi Hreach Hv. split.
  - apply color_func_ok; lra.
  - destruct (get_color_returns self v m Hv) as (c & p' & Hget).
    exists c, p'. split; [exact Hget|].
    exact (proj1 (get_color_answer self v m c p'
                    (reachable_cache_sound self Hreach) Hget) Hv).
Qed.

Lemma channels_in_range_witness :
  let self := snd (next_palette palette_init) in
  channels_ok (color_func self ELECTRIC 0.5 1) /\
  exists c p', get_color 12 59 self = (Ok c, p') /\ channels_ok c.
Proof.
  intros self.
  apply (channels_in_range self ELECTRIC 0.5 1 12 59);
    [lra | lra | apply palette_reach_next, palette_reach_init | lia].
Defined.

(** * Further properties of the iteration engine *)

(** ** Images without pixels *)

Lemma for_each_const_nil {A B : Type} (xs : list A) :
  for_each (fun _ : A => Ok (@nil B)) xs = Ok (repeat [] (length xs)).
Proof.
  induction xs as [|x xs IH]; cbn; [reflexivity|].
  rewrite IH. reflexivity.
Qed.

Lemma range_zero : range 0 = [].
Proof. reflexivity. Qed.

(** X1.  With no rows or no columns (and no negative size) the call
    returns [height] empty rows and raises nothing, also when the other
    axis has a single pixel: no pixel is mapped, so nothing is divided. *)
Theorem empty_image (h w : Z) (x_min x_max y_min y_max : R) (m : Z) :
  (0 <= h)%Z -> (0 <= w)%Z -> h = 0%Z \/ w = 0%Z ->
  mandelbrot_calculation h w x_min x_max y_min y_max m
  = Ok (repeat [] (Z.to_nat h)).
Proof.
  intros Hh Hw Hzero. unfold mandelbrot_calculation.
  destruct (Z.ltb_spec h 0); [lia|]. destruct (Z.ltb_spec w 0); [lia|].
  cbn [orb]. destruct Hzero as [-> | ->].
  - reflexivity.
  - rewrite range_zero. cbn [for_each].
    rewrite (for_each_const_nil (range h)), range_length. reflexivity.
Qed.

Lemma empty_image_witness :
  mandelbrot_calculation 1 0 (-2) 1 (-1) 1 50 = Ok (repeat [] (Z.to_nat 1)).
Proof.
  apply (empty_image 1 0 (-2) 1 (-1) 1 50); [lia | lia | right; reflexivity].
Defined.

(** ** The first iterations *)

Lemma first_update (c : complex) : Cadd (Cmul (0, 0) (0, 0)) c = c.
Proof.
  destruct c as [x y]. unfold Cadd, Cmul. cbn [fst snd]. f_equal; ring.
Qed.

Lemma iterate_first (fuel : nat) (c : complex) :
  iterate (S fuel) 0 (0, 0) c = iterate fuel 1 c c.
Proof.
  cbn [iterate]. rewrite Cabs_origin, first_update.
  assert (H2 : Rgtb 0 2 = false) by (apply Rgtb_false; lra).
  rewrite H2. reflexivity.
Qed.

Lemma escape_count_assigned (m : Z) (c : complex) :
  (0 <= m <= 2147483647)%Z ->
  escape_count m c = assigned m (iterate (Z.to_nat m) 0 (0, 0) c).
Proof.
  intros Hm. unfold escape_count.
  destruct (assigned_range m c) as [Hr _]; [lia|]. cbn zeta in Hr.
  apply int32_small. lia.
Qed.

Lemma escape_count_positive (m : Z) (c : complex) :
  (1 <= m <= 2147483647)%Z -> (1 <= escape_count m c)%Z.
Proof.
  intros Hm. rewrite escape_count_assigned by lia.
  destruct (Z.to_nat m) as [|fuel] eqn:Hf; [lia|].
  rewrite iterate_first.
  destruct (iterate fuel 1 c c) as [n| |] eqn:Hx; cbn [assigned]; [|lia|lia].
  apply iterate_diverged in Hx. lia.
Qed.

Lemma escape_count_one (m : Z) (c : complex) :
  (2 <= m <= 2147483647)%Z -> (escape_count m c = 1%Z <-> Cabs c > 2).
Proof.
  intros Hm. rewrite escape_count_assigned by lia.
  destruct (Z.to_nat m) as [|[|fuel]] eqn:Hf; [lia | lia |].
  rewrite iterate_first. cbn [iterate].
  destruct (Rgtb (Cabs c) 2) eqn:Hg.
  - cbn [assigned]. apply Rgtb_true in Hg. split; [intros _; exact Hg|].
    intros _. reflexivity.
  - apply Rgtb_false in Hg. change (20 <? 1)%Z with false. cbn [andb].
    split; [|lra]. intros H1. exfalso.
    destruct (iterate fuel (1 + 1) (Cadd (Cmul c c) c) c) as [n| |] eqn:Hx;
      cbn [assigned] in H1; [|lia|lia].
    apply iterate_diverged in Hx. lia.
Qed.

(** X2.  With [1 <= max_iter <= 2^31 - 1] no entry of the grid is 0:
    [z] starts at 0, so the divergence test cannot succeed at [n = 0]. *)
Theorem entries_never_zero (h w : Z) (x_min x_max y_min y_max : R) (m : Z)
    (g : grid) (i j : Z) :
  (1 <= m <= 2147483647)%Z ->
  mandelbrot_calculation h w x_min x_max y_min y_max m = Ok g ->
  (0 <= i < h)%Z -> (0 <= j < w)%Z ->
  exists v, cell g i j = Some v /\ (1 <= v <= m)%Z.
Proof.
  intros Hm Hg Hi Hj. eexists.
  split; [exact (mandelbrot_pixel _ _ _ _ _ _ _ g i j Hg Hi Hj)|].
  destruct (pixel_point h w x_min x_max y_min y_max i j) as [c|x].
  - change (pixel_value m (Ok c)) with (escape_count m c). split.
    + apply escape_count_positive. exact Hm.
    + apply escape_count_range. lia.
  - rewrite (proj2 (pixel_value_nan m x)).
    rewrite int32_small by lia. lia.
Qed.

(** X3.  With [2 <= max_iter <= 2^31 - 1] a pixel's entry is 1 exactly
    when its plane point lies outside the closed disc of radius 2. *)
Theorem entry_one_iff_outside_disc (h w : Z) (x_min x_max y_min y_max : R)
    (m : Z) (g : grid) (i j : Z) (c : complex) :
  (2 <= m <= 2147483647)%Z ->
  mandelbrot_calculation h w x_min x_max y_min y_max m = Ok g ->
  (0 <= i < h)%Z -> (0 <= j < w)%Z ->
  pixel_point h w x_min x_max y_min y_max i j = Ok c ->
  (cell g i j = Some 1%Z <-> Cabs c > 2).
Proof.
  intros Hm Hg Hi Hj Hc.
  rewrite (mandelbrot_cell _ _ _ _ _ _ _ g i j c Hg Hi Hj Hc).
  rewrite <- (escape_count_one m c Hm). split.
  - intros H. inversion H. reflexivity.
  - intros ->. reflexivity.
Qed.

Lemma entries_never_zero_witness :
  exists g, mandelbrot_calculation 2 2 0 1 0 1 50 = Ok g /\
    exists v, cell g 0 0 = Some v /\ (1 <= v <= 50)%Z.
Proof.
  destruct (mandelbrot_total 2 2 0 1 0 1 50) as [g Hg]; [lia | lia |].
  exists g. split; [exact Hg|].
  apply (entries_never_zero 2 2 0 1 0 1 50 g 0 0); [lia | exact Hg | lia | lia].
Defined.

Lemma entry_one_iff_outside_disc_witness :
  exists g, mandelbrot_calculation 2 2 1 2 1 2 50 = Ok g /\
    (cell g 1 1 = Some 1%Z <-> Cabs (2, 2) > 2).
Proof.
  destruct (mandelbrot_total 2 2 1 2 1 2 50) as [g Hg]; [lia | lia |].
  exists g. split; [exact Hg|].
  apply (entry_one_iff_outside_disc 2 2 1 2 1 2 50 g 1 1 (2, 2));
    [lia | exact Hg | lia | lia | apply pixel_point_corner].
Defined.

(** ** Symmetry about the real axis *)

Lemma Cabs_conj (z : complex) : Cabs (Cconj z) = Cabs z.
Proof. unfold Cabs, Cconj. cbn [fst snd]. f_equal. ring. Qed.

Lemma step_conj (z c : complex) :
  Cadd (Cmul (Cconj z) (Cconj z)) (Cconj c) = Cconj (Cadd (Cmul z z) c).
Proof. unfold Cadd, Cmul, Cconj. cbn [fst snd]. f_equal; ring. Qed.

Lemma iterate_conj (fuel : nat) (n : Z) (z c : complex) :
  iterate fuel n (Cconj z) (Cconj c) = iterate fuel n z c.
Proof.
  revert n z. induction fuel as [|fuel IH]; intros n z; cbn [iterate];
    [reflexivity|].
  rewrite Cabs_conj, step_conj, Cabs_conj, IH. reflexivity.
Qed.

Lemma escape_count_conj (m : Z) (c : complex) :
  escape_count m (Cconj c) = escape_count m c.
Proof.
  unfold escape_count.
  assert (H0 : (0, 0) = Cconj (0, 0)).
  { unfold Cconj. cbn [fst snd]. f_equal. ring. }
  rewrite H0 at 1. rewrite iterate_conj. reflexivity.
Qed.

(** X4.  Two pixels of a grid whose plane points are complex conjugates
    have the same entry. *)
Theorem conjugate_pixels_agree (h w : Z) (x_min x_max y_min y_max : R)
    (m : Z) (g : grid) (i j i' j' : Z) (x y : R) :
  mandelbrot_calculation h w x_min x_max y_min y_max m = Ok g ->
  (0 <= i < h)%Z -> (0 <= j < w)%Z -> (0 <= i' < h)%Z -> (0 <= j' < w)%Z ->
  pixel_point h w x_min x_max y_min y_max i j = Ok (x, y) ->
  pixel_point h w x_min x_max y_min y_max i' j' = Ok (x, - y) ->
  cell g i j = cell g i' j'.
Proof.
  intros Hg Hi Hj Hi' Hj' Hc Hc'.
  rewrite (mandelbrot_cell _ _ _ _ _ _ _ g i j _ Hg Hi Hj Hc).
  rewrite (mandelbrot_cell _ _ _ _ _ _ _ g i' j' _ Hg Hi' Hj' Hc').
  f_equal. symmetry. apply (escape_count_conj m (x, y)).
Qed.

Lemma pixel_point_mirror :
  pixel_point 3 2 0 1 (-1) 1 0 1 = Ok (1, -1) /\
  pixel_point 3 2 0 1 (-1) 1 2 1 = Ok (1, - -1).
Proof.
  unfold pixel_point, pixel_to_plane.
  destruct (Req_dec_T (IZR (2 - 1)) 0) as [H|_]; [apply eq_IZR in H; lia|].
  destruct (Req_dec_T (IZR (3 - 1)) 0) as [H|_]; [apply eq_IZR in H; lia|].
  change (2 - 1)%Z with 1%Z. change (3 - 1)%Z with 2%Z. cbn.
  split; do 2 f_equal; lra.
Qed.

Lemma conjugate_pixels_agree_witness :
  exists g, mandelbrot_calculation 3 2 0 1 (-1) 1 50 = Ok g /\
            cell g 0 1 = cell g 2 1.
Proof.
  destruct (mandelbrot_total 3 2 0 1 (-1) 1 50) as [g Hg];
    [lia | lia |].
  exists g. split; [exact Hg|].
  destruct pixel_point_mirror as [H1 H2].
  apply (conjugate_pixels_agree 3 2 0 1 (-1) 1 50 g 0 1 2 1 1 (-1));
    [exact Hg | lia | lia | lia | lia | exact H1 | exact H2].
Defined.

(** ** Points close to the origin *)

Lemma Cabs_norm (z : complex) : Cabs z = sqrt (Cnorm2 z).
Proof. reflexivity. Qed.

Lemma Cnorm2_nonneg (z : complex) : 0 <= Cnorm2 z.
Proof. unfold Cnorm2. nra. Qed.

Lemma step_stays_small (z c : complex) :
  Cnorm2 z <= 1 / 4 -> Cnorm2 c <= 1 / 16 ->
  Cnorm2 (Cadd (Cmul z z) c) <= 1 / 4.
Proof.
  destruct z as [a b], c as [p q]. unfold Cnorm2, Cadd, Cmul.
  cbn [fst snd]. intros Hz Hc.
  set (u := a * a - b * b). set (v := a * b + b * a).
  assert (Huv : u * u + v * v = (a * a + b * b) * (a * a + b * b))
    by (subst u v; ring).
  assert (Hsq : u * u + v * v <= 1 / 16).
  { rewrite Huv. assert (0 <= a * a + b * b) by nra.
    apply Rle_trans with (1 / 4 * (1 / 4)); [|lra].
    apply Rmult_le_compat; assumption. }
  clearbody u v.
  pose proof (Rle_0_sqr (u - p)) as Hu. pose proof (Rle_0_sqr (v - q)) as Hv.
  unfold Rsqr in Hu, Hv. nra.
Qed.

Lemma small_not_diverged (z : complex) :
  Cnorm2 z <= 1 / 4 -> Rgtb (Cabs z) 2 = false.
Proof.
  intros Hz. apply Rgtb_false. rewrite Cabs_norm.
  replace 2 with (sqrt 4).
  - apply sqrt_le_1_alt. lra.
  - replace 4 with (2 * 2) by ring. apply sqrt_square. lra.
Qed.

Lemma iterate_stays_small (fuel : nat) (n : Z) (z c : complex) (k : Z) :
  Cnorm2 z <= 1 / 4 -> Cnorm2 c <= 1 / 16 ->
  iterate fuel n z c <> Diverged k.
Proof.
  revert n z. induction fuel as [|fuel IH]; intros n z Hz Hc;
    cbn [iterate]; [discriminate|].
  rewrite (small_not_diverged z Hz).
  destruct ((20 <? n)%Z && Rltb (Cabs (Cadd (Cmul z z) c)) 1e-10);
    [discriminate|].
  apply IH; [apply step_stays_small; assumption | exact Hc].
Qed.

Lemma Cabs_quarter (c : complex) : Cabs c <= 1 / 4 -> Cnorm2 c <= 1 / 16.
Proof.
  intros Hc. rewrite Cabs_norm in Hc.
  pose proof (sqrt_pos (Cnorm2 c)) as H0.
  rewrite <- (sqrt_sqrt (Cnorm2 c) (Cnorm2_nonneg c)). nra.
Qed.

(** X5.  With [0 <= max_iter <= 2^31 - 1], a pixel whose plane point lies
    in the closed disc of radius 1/4 about the origin gets [max_iter]:
    its orbit never leaves the disc of radius 1/2, so the divergence test
    never succeeds. *)
Theorem quarter_disc_in_set (h w : Z) (x_min x_max y_min y_max : R)
    (m : Z) (g : grid) (i j : Z) (c : complex) :
  (0 <= m <= 2147483647)%Z ->
  mandelbrot_calculation h w x_min x_max y_min y_max m = Ok g ->
  (0 <= i < h)%Z -> (0 <= j < w)%Z ->
  pixel_point h w x_min x_max y_min y_max i j = Ok c ->
  Cabs c <= 1 / 4 ->
  cell g i j = Some m.
Proof.
  intros Hm Hg Hi Hj Hc Hsmall.
  rewrite (mandelbrot_cell _ _ _ _ _ _ _ g i j c Hg Hi Hj Hc). f_equal.
  apply escape_count_range; [lia|].
  intros k. apply iterate_stays_small.
  - unfold Cnorm2. cbn [fst snd]. lra.
  - apply Cabs_quarter. exact Hsmall.
Qed.

Lemma quarter_disc_in_set_witness :
  exists g, mandelbrot_calculation 2 2 0 1 0 1 50 = Ok g /\
            cell g 0 0 = Some 50%Z.
Proof.
  destruct (mandelbrot_total 2 2 0 1 0 1 50) as [g Hg];
    [lia | lia |].
  exists g. split; [exact Hg|].
  apply (quarter_disc_in_set 2 2 0 1 0 1 50 g 0 0 (0, 0));
    [lia | exact Hg | lia | lia | apply pixel_point_first |].
  rewrite Cabs_origin. lra.
Defined.

(** ** [smooth_coloring] *)

Lemma ln_2_pos : 0 < ln 2.
Proof. rewrite <- ln_1. apply ln_increasing; lra. Qed.

Lemma ln_le (x y : R) : 0 < x -> x <= y -> ln x <= ln y.
Proof.
  intros Hx [Hlt | ->]; [|lra]. left. apply ln_increasing; assumption.
Qed.

Lemma log2_above_1 (x : R) : 2 < x -> 1 < ln x / ln 2.
Proof.
  intros Hx. pose proof ln_2_pos as H2.
  assert (Hl : ln 2 < ln x) by (apply ln_increasing; lra).
  apply Rmult_lt_reg_r with (ln 2); [exact H2|].
  replace (ln x / ln 2 * ln 2) with (ln x) by (field; lra). lra.
Qed.

Lemma log2_at_most_2 (x : R) : 0 < x -> x <= 4 -> ln x / ln 2 <= 2.
Proof.
  intros H0 Hx. pose proof ln_2_pos as H2.
  assert (H4 : ln 4 = 2 * ln 2).
  { replace 4 with (2 * 2) by ring. rewrite ln_mult by lra. ring. }
  pose proof (ln_le x 4 H0 Hx) as Hl.
  apply Rmult_le_reg_r with (ln 2); [exact H2|].
  replace (ln x / ln 2 * ln 2) with (ln x) by (field; lra). lra.
Qed.

(** X6.  [smooth_coloring] raises nothing.  Once
    [iterations >= max_iter] it returns [iterations].  Below the cap, for
    a value that has passed the divergence test, [abs(z) > 2], it returns
    a number that is at most [iterations + 1], and at least [iterations]
    when moreover [abs(z) <= 4]; for [abs(z) = 1] it returns [+inf] and
    for [abs(z) < 1] it returns NaN. *)
Theorem smooth_coloring_cases (iterations : Z) (z : complex) (max_iter : Z) :
  ((max_iter <= iterations)%Z ->
   smooth_coloring iterations z max_iter = Finite (IZR iterations)) /\
  ((iterations < max_iter)%Z ->
   (Cabs z > 2 ->
    exists s, smooth_coloring iterations z max_iter = Finite s /\
              s <= IZR iterations + 1 /\
              (Cabs z <= 4 -> IZR iterations <= s)) /\
   (Cabs z = 1 -> smooth_coloring iterations z max_iter = PosInf) /\
   (Cabs z < 1 -> smooth_coloring iterations z max_iter = NaN)).
Proof.
  unfold smooth_coloring. split.
  - intros Hge. destruct (Z.ltb_spec iterations max_iter); [lia|reflexivity].
  - intros Hlt. destruct (Z.ltb_spec iterations max_iter); [|lia].
    cbv zeta. pose proof ln_2_pos as H2. split; [|split].
    + intros Hz. cbn [np_log2].
      destruct (Rlt_dec 0 (Cabs z)) as [H0|H0]; [|lra].
      pose proof (log2_above_1 (Cabs z) Hz) as Hin. cbn [np_log2].
      destruct (Rlt_dec 0 (ln (Cabs z) / ln 2)) as [H1|H1]; [|lra].
      cbn [float_sub].
      assert (Hout : 0 < ln (ln (Cabs z) / ln 2) / ln 2).
      { apply Rdiv_lt_0_compat; [|exact H2].
        rewrite <- ln_1. apply ln_increasing; lra. }
      eexists. split; [reflexivity|]. split; [lra|].
      intros H4. pose proof (log2_at_most_2 (Cabs z) H0 H4) as Hle.
      assert (Hout1 : ln (ln (Cabs z) / ln 2) / ln 2 <= 1).
      { apply Rmult_le_reg_r with (ln 2); [exact H2|].
        replace (ln (ln (Cabs z) / ln 2) / ln 2 * ln 2)
          with (ln (ln (Cabs z) / ln 2)) by (field; lra).
        rewrite Rmult_1_l. apply ln_le; lra. }
      lra.
    + intros ->. cbn [np_log2].
      destruct (Rlt_dec 0 1) as [_|H0]; [|lra].
      rewrite ln_1. replace (0 / ln 2) with 0 by (field; lra).
      cbn [np_log2].
      destruct (Rlt_dec 0 0) as [H0|_]; [lra|].
      destruct (Req_dec_T 0 0) as [_|H0]; [reflexivity|lra].
    + intros Hz. cbn [np_log2].
      destruct (Rlt_dec 0 (Cabs z)) as [H0|H0].
      * assert (Hneg : ln (Cabs z) / ln 2 < 0).
        { assert (Hl : ln (Cabs z) < 0)
            by (rewrite <- ln_1; apply ln_increasing; lra).
          apply Rmult_lt_reg_r with (ln 2); [exact H2|].
          replace (ln (Cabs z) / ln 2 * ln 2) with (ln (Cabs z))
            by (field; lra).
          lra. }
        cbn [np_log2].
        destruct (Rlt_dec 0 (ln (Cabs z) / ln 2)) as [H1|_]; [lra|].
        destruct (Req_dec_T (ln (Cabs z) / ln 2) 0) as [H1|_]; [lra|].
        reflexivity.
      * destruct (Req_dec_T (Cabs z) 0) as [_|H1]; [reflexivity|].
        exfalso. unfold Cabs in *.
        pose proof (sqrt_pos (fst z * fst z + snd z * snd z)). lra.
Qed.

(** * Further properties of the engine *)

(** ** What the navigation methods leave alone *)

Lemma zoom_at_point_frame (x y : Z) (k : R) (e : MandelbrotEngine) :
  let e' := snd (zoom_at_point x y k e) in
  max_iter e' = max_iter e /\ min_iter e' = min_iter e /\
  max_max_iter e' = max_max_iter e /\ last_params e' = last_params e /\
  cached_result e' = cached_result e /\ render_count e' = render_count e /\
  total_pixels e' = total_pixels e.
Proof.
  unfold zoom_at_point, get_bounds, fdiv. run_M.
  repeat split_div; fields; repeat split; reflexivity.
Qed.

Lemma pan_frame (dx dy : Z) (e : MandelbrotEngine) :
  let e' := snd (pan dx dy e) in
  max_iter e' = max_iter e /\ min_iter e' = min_iter e /\
  max_max_iter e' = max_max_iter e /\ last_params e' = last_params e /\
  cached_result e' = cached_result e /\ render_count e' = render_count e /\
  total_pixels e' = total_pixels e.
Proof.
  unfold pan, get_bounds, fdiv. run_M.
  repeat split_div; fields; repeat split; reflexivity.
Qed.

(** ** [render] *)

Lemma render_ext (e e2 : MandelbrotEngine) :
  current_params e2 = current_params e ->
  aspect_ratio e2 = aspect_ratio e ->
  min_iter e2 = min_iter e -> max_max_iter e2 = max_max_iter e ->
  render e2 = render e.
Proof.
  unfold current_params. intros Hp Ha Hmin Hmax. inversion Hp.
  unfold render, get_bounds, adaptive_iterations.
  repeat match goal with H : _ = _ |- _ => rewrite H end.
  reflexivity.
Qed.

Lemma generate_render (e : MandelbrotEngine) :
  cache_hit e = None ->
  generate e =
  match render e with
  | Ok result => (Ok result, rendered e result)
  | Raise x => (Raise x, e)
  end.
Proof.
  intros Hc. rewrite (generate_miss e Hc). unfold render.
  destruct (get_bounds e) as [[[[x_min x_max] y_min] y_max]|x];
    [|reflexivity]. cbn.
  destruct (adaptive_iterations e (zoom e)) as [a|x]; reflexivity.
Qed.

Lemma render_Ok (e : MandelbrotEngine) (g : grid) :
  render e = Ok g ->
  exists x_min x_max y_min y_max adaptive_iter,
    get_bounds e = Ok (x_min, x_max, y_min, y_max) /\
    adaptive_iterations e (zoom e) = Ok adaptive_iter /\
    mandelbrot_calculation (height e) (width e) x_min x_max y_min y_max
      (Z.min (max_iter e) adaptive_iter) = Ok g.
Proof.
  unfold render.
  destruct (get_bounds e) as [[[[x_min x_max] y_min] y_max]|x];
    [|discriminate]. cbn.
  destruct (adaptive_iterations e (zoom e)) as [a|x]; [|discriminate]. cbn.
  intros H. exists x_min, x_max, y_min, y_max, a. auto.
Qed.

(** ** Invariants of the reachable states *)

Lemma run_sized (c : command) (e : MandelbrotEngine) :
  sized e -> sized (snd (run c e)).
Proof.
  unfold sized. intros Hs.
  destruct c as [x y k|dx dy| |w h|f|f]; cbn [run].
  - pose proof (zoom_at_point_fields x y k e) as (Hw & Hh & Ha & _).
    pose proof (zoom_at_point_frame x y k e) as (_ & _ & _ & _ & _ & _ & Ht).
    cbn zeta in *. rewrite Hw, Hh, Ha, Ht. exact Hs.
  - pose proof (pan_fields dx dy e) as (Hw & Hh & Ha & _).
    pose proof (pan_frame dx dy e) as (_ & _ & _ & _ & _ & _ & Ht).
    cbn zeta in *. rewrite Hw, Hh, Ha, Ht. exact Hs.
  - unfold reset_view. run_M. fields. exact Hs.
  - unfold resize, fdiv. run_M. split_div; fields.
    + intros Hh. exfalso. apply Hh. apply eq_IZR. assumption.
    + intros _. split; reflexivity.
  - unfold increase_iterations. run_M. fields. exact Hs.
  - unfold decrease_iterations. run_M. fields. exact Hs.
Qed.

Lemma run_cache_coherent (c : command) (e : MandelbrotEngine) :
  cache_coherent e -> cache_coherent (snd (run c e)).
Proof.
  unfold cache_coherent. intros Hc.
  destruct c as [x y k|dx dy| |w h|f|f]; cbn [run].
  - pose proof (zoom_at_point_fields x y k e) as (_ & _ & Ha & _).
    pose proof (zoom_at_point_frame x y k e)
      as (_ & Hmin & Hmax & Hl & Hr & _).
    cbn zeta in *. rewrite Ha, Hmin, Hmax, Hl, Hr. exact Hc.
  - pose proof (pan_fields dx dy e) as (_ & _ & Ha & _).
    pose proof (pan_frame dx dy e) as (_ & Hmin & Hmax & Hl & Hr & _).
    cbn zeta in *. rewrite Ha, Hmin, Hmax, Hl, Hr. exact Hc.
  - unfold reset_view. run_M. fields. discriminate.
  - unfold resize, fdiv. run_M. split_div; fields; [exact Hc|discriminate].
  - unfold increase_iterations. run_M. fields. discriminate.
  - unfold decrease_iterations. run_M. fields. discriminate.
Qed.

Lemma generate_state (e : MandelbrotEngine) :
  snd (generate e) = e \/
  exists r, render e = Ok r /\ snd (generate e) = rendered e r.
Proof.
  destruct (cache_hit e) as [held|] eqn:Hc.
  - left. rewrite (generate_hit e held Hc). reflexivity.
  - rewrite (generate_render e Hc).
    destruct (render e) as [r|x]; [right; exists r; auto|left; reflexivity].
Qed.

Lemma reachable_invariants (e : MandelbrotEngine) :
  reachable e ->
  view_ok e /\ sized e /\ cache_coherent e /\ (0 <= render_count e)%Z.
Proof.
  induction 1 as [w h e Hinit|c e _ IH|e _ IH].
  - split; [exact (engine_init_view_ok w h e Hinit)|].
    unfold engine_init, fdiv in Hinit. run_M.
    destruct (Req_dec_T (IZR h) 0); [discriminate|].
    inversion Hinit. unfold sized, cache_coherent. fields.
    split; [intros _; split; reflexivity|]. split; [discriminate|lia].
  - destruct IH as (Hv & Hs & Hc & Hn).
    split; [apply run_view_ok, Hv|]. split; [apply run_sized, Hs|].
    split; [apply run_cache_coherent, Hc|].
    destruct c as [x y k|dx dy| |w h|f|f]; cbn [run].
    + pose proof (zoom_at_point_frame x y k e) as (_ & _ & _ & _ & _ & Hr & _).
      cbn zeta in Hr. rewrite Hr. exact Hn.
    + pose proof (pan_frame dx dy e) as (_ & _ & _ & _ & _ & Hr & _).
      cbn zeta in Hr. rewrite Hr. exact Hn.
    + unfold reset_view. run_M. fields. exact Hn.
    + unfold resize, fdiv. run_M. split_div; fields; exact Hn.
    + unfold increase_iterations. run_M. fields. exact Hn.
    + unfold decrease_iterations. run_M. fields. exact Hn.
  - destruct IH as (Hv & Hs & Hc & Hn).
    destruct (generate_state e) as [-> | (r & Hr & ->)]; [auto|].
    unfold rendered, view_ok, sized, cache_coherent in *. fields.
    split; [exact Hv|]. split; [exact Hs|]. split; [|lia].
    intros p g Hp Hg e2 Hp2 Ha Hmin Hmax.
    injection Hp as <-. injection Hg as <-.
    exact (eq_trans (render_ext e e2 Hp2 Ha Hmin Hmax) Hr).
Qed.

(** ** The held grid is never stale *)

Lemma generate_returns_render (e e1 : MandelbrotEngine) (g : grid) :
  reachable e -> generate e = (Ok g, e1) -> render e = Ok g.
Proof.
  intros Hreach Hgen.
  destruct (reachable_invariants e Hreach) as (_ & _ & Hco & _).
  destruct (cache_hit e) as [held|] eqn:Hc.
  - rewrite (generate_hit e held Hc) in Hgen. inversion Hgen. subst held e1.
    unfold cache_hit in Hc.
    destruct (decide (Some (current_params e) = last_params e)) as [Hl|];
      [|discriminate].
    apply (Hco (current_params e) g); auto.
  - rewrite (generate_render e Hc) in Hgen.
    destruct (render e) as [r|x]; inversion Hgen. reflexivity.
Qed.

(** X7.  In every reachable state, whatever [generate] returns, held or
    computed, is the grid [mandelbrot_calculation] gives for the current
    size, the current bounds and
    [min(max_iter, adaptive_iterations(zoom))]: every method that changes
    an input of the computation without changing the tuple also clears
    the cache. *)
Theorem generate_never_stale (e e1 : MandelbrotEngine) (g : grid) :
  reachable e -> generate e = (Ok g, e1) ->
  exists x_min x_max y_min y_max adaptive_iter,
    get_bounds e = Ok (x_min, x_max, y_min, y_max) /\
    adaptive_iterations e (zoom e) = Ok adaptive_iter /\
    mandelbrot_calculation (height e) (width e) x_min x_max y_min y_max
      (Z.min (max_iter e) adaptive_iter) = Ok g.
Proof.
  intros Hreach Hgen. apply render_Ok.
  exact (generate_returns_render e e1 g Hreach Hgen).
Qed.

Lemma generate_never_stale_witness :
  let e := mkEngine 4 3 (-0.5) 0 1 (IZR 4 / IZR 3) 100 50 2000
             None None 0 (4 * 3) in
  exists g e1,
    generate e = (Ok g, e1) /\ generate e1 = (Ok g, e1) /\
    exists x_min x_max y_min y_max adaptive_iter,
      get_bounds e1 = Ok (x_min, x_max, y_min, y_max) /\
      adaptive_iterations e1 (zoom e1) = Ok adaptive_iter /\
      mandelbrot_calculation (height e1) (width e1) x_min x_max y_min y_max
        (Z.min (max_iter e1) adaptive_iter) = Ok g.
Proof.
  intros e.
  destruct (fresh_engine 4 3) as (_ & Hreach & Hmin & Hmax & Hz & Ha & Hc);
    [lia | lia |].
  destruct (generate_computes e Hmin Hmax Hz Ha) as
    (x_min & x_max & y_min & y_max & g & _ & _ & _ & Hgen);
    [subst e; fields; lia | subst e; fields; lia | exact Hc |].
  set (e1 := rendered e g) in *.
  assert (Hreach1 : reachable e1).
  { replace e1 with (snd (generate e)) by (rewrite Hgen; reflexivity).
    apply reach_generate, Hreach. }
  assert (Hhit : generate e1 = (Ok g, e1))
    by (apply generate_hit, cache_hit_rendered).
  exists g, e1. split; [exact Hgen|]. split; [exact Hhit|].
  exact (generate_never_stale e1 e1 g Hreach1 Hhit).
Defined.

(** ** An image with a single row or column *)

Lemma aspect_nonzero (e : MandelbrotEngine) :
  view_ok e -> width e <> 0%Z -> height e <> 0%Z -> aspect_ratio e <> 0.
Proof.
  intros (_ & Ha & _) Hw Hh. rewrite (Ha Hh). unfold Rdiv.
  apply Rmult_integral_contrapositive. split.
  - intros H0. apply eq_IZR in H0. contradiction.
  - apply Rinv_neq_0_compat. intros H0. apply eq_IZR in H0. contradiction.
Qed.

Lemma render_single_axis (e : MandelbrotEngine) :
  view_ok e -> (1 <= width e)%Z -> (1 <= height e)%Z ->
  width e = 1%Z \/ height e = 1%Z ->
  render e =
  Ok (repeat
        (repeat
           (int32 (Z.min (max_iter e) (adaptive_iterations_spec (zoom e))))
           (Z.to_nat (width e)))
        (Z.to_nat (height e))).
Proof.
  intros Hv Hw Hh Hone.
  pose proof (aspect_nonzero e Hv ltac:(lia) ltac:(lia)) as Ha.
  destruct Hv as (Hz & _ & Hmin & Hmax).
  unfold render. rewrite (get_bounds_Ok e) by (try exact Ha; lra). cbn.
  rewrite (adaptive_iterations_nonneg e (zoom e) Hmin Hmax) by lra. cbn.
  apply single_axis_grid; [lia | lia | exact Hone].
Qed.

(** X8.  An engine built or resized to a single row or a single column
    renders a flat image: in every reachable state with [width >= 1],
    [height >= 1] and one of them 1, [generate] raises nothing and returns
    a grid of [height] rows of [width] entries, every one of them
    [min(max_iter, adaptive_iterations(zoom))] (as an [int32]), wherever
    the view is. *)
Theorem generate_single_axis_flat (e : MandelbrotEngine) :
  reachable e -> (1 <= width e)%Z -> (1 <= height e)%Z ->
  width e = 1%Z \/ height e = 1%Z ->
  exists e1,
    generate e =
    (Ok (repeat
           (repeat
              (int32 (Z.min (max_iter e) (adaptive_iterations_spec (zoom e))))
              (Z.to_nat (width e)))
           (Z.to_nat (height e))),
     e1).
Proof.
  intros Hreach Hw Hh Hone.
  destruct (reachable_invariants e Hreach) as (Hv & _ & Hco & _).
  pose proof (render_single_axis e Hv Hw Hh Hone) as Hr.
  destruct (cache_hit e) as [held|] eqn:Hc.
  - exists e. rewrite (generate_hit e held Hc). do 2 f_equal.
    unfold cache_hit in Hc.
    destruct (decide (Some (current_params e) = last_params e)) as [Hl|];
      [|discriminate].
    assert (Hok : render e = Ok held)
      by (apply (Hco (current_params e) held); auto).
    rewrite Hr in Hok. inversion Hok. reflexivity.
  - rewrite (generate_render e Hc), Hr. eexists. reflexivity.
Qed.

Lemma generate_single_axis_flat_witness :
  let e := snd (resize 640 1
                  (mkEngine 800 600 (-0.5) 0 1 (IZR 800 / IZR 600) 100 50
                     2000 None None 0 (800 * 600))) in
  exists e1, generate e = (Ok [repeat 59%Z 640], e1).
Proof.
  intros e.
  assert (Hreach : reachable e).
  { apply (reach_run (Resize 640 1)).
    apply (reach_init 800 600). apply engine_init_Ok. lia. }
  assert (Hsize : width e = 640%Z /\ height e = 1%Z /\ zoom e = 1 /\
                  max_iter e = 100%Z).
  { subst e. unfold resize, fdiv. run_M.
    destruct (Req_dec_T (IZR 1) 0) as [H0|_]; [lra|]. fields. auto. }
  destruct Hsize as (Hw & Hh & Hz & Hm).
  destruct (generate_single_axis_flat e Hreach) as [e1 Hgen];
    [lia | lia | right; exact Hh |].
  exists e1. rewrite Hgen, Hw, Hh, Hz, Hm.
  destruct (reachable_invariants e Hreach) as ((_ & _ & Hmin & Hmax) & _).
  pose proof (adaptive_iterations_nonneg e 1 Hmin Hmax ltac:(lra)) as Hspec.
  rewrite (adaptive_iterations_at_1 e Hmin Hmax) in Hspec.
  injection Hspec as <-. reflexivity.
Defined.

(** ** [reset_view] *)

(** X9.  In every reachable state with a height that is not zero,
    [reset_view] raises nothing and leaves exactly the engine a fresh
    [MandelbrotEngine(width, height)] would be, except that
    [render_count] keeps its value. *)
Theorem reset_view_is_fresh (e : MandelbrotEngine) :
  reachable e -> height e <> 0%Z ->
  exists e0, engine_init (width e) (height e) = Ok e0 /\
             reset_view e = (Ok tt, set_render_count (render_count e) e0).
Proof.
  intros Hreach Hh.
  destruct (reachable_invariants e Hreach)
    as ((_ & _ & Hmin & Hmax) & Hs & _ & _).
  destruct (Hs Hh) as [Ha Ht].
  eexists. split; [apply engine_init_Ok; exact Hh|].
  unfold reset_view. run_M.
  unfold set_render_count, set_cache, set_max_iter, set_zoom, set_y_center,
    set_x_center. fields.
  rewrite Ha, Ht, Hmin, Hmax. reflexivity.
Qed.

Lemma reset_view_is_fresh_witness :
  let e := run_all [ZoomAtPoint 10 20 1.2; Pan 3 4; IncreaseIterations 50]
             (mkEngine 800 600 (-0.5) 0 1 (IZR 800 / IZR 600) 100 50 2000
                None None 0 (800 * 600)) in
  exists e0, engine_init (width e) (height e) = Ok e0 /\
             reset_view e = (Ok tt, set_render_count (render_count e) e0).
Proof.
  intros e.
  assert (Hreach : reachable e).
  { subst e. cbn [run_all fold_left].
    apply (reach_run (IncreaseIterations 50)), (reach_run (Pan 3 4)),
      (reach_run (ZoomAtPoint 10 20 1.2)).
    apply (reach_init 800 600). apply engine_init_Ok. lia. }
  apply (reset_view_is_fresh e Hreach).
  subst e. cbn [run_all fold_left run].
  unfold increase_iterations. run_M. fields.
  pose proof (pan_fields 3 4
    (snd (zoom_at_point 10 20 1.2
       (mkEngine 800 600 (-0.5) 0 1 (IZR 800 / IZR 600) 100 50 2000
          None None 0 (800 * 600))))) as (_ & Hh & _).
  cbn zeta in Hh. rewrite Hh.
  pose proof (zoom_at_point_fields 10 20 1.2
    (mkEngine 800 600 (-0.5) 0 1 (IZR 800 / IZR 600) 100 50 2000
       None None 0 (800 * 600))) as (_ & Hh' & _).
  cbn zeta in Hh'. rewrite Hh'. fields. lia.
Defined.

(** ** The iteration cap *)

Lemma run_max_iter (c : command) (e : MandelbrotEngine) :
  step_nonneg c ->
  min_iter e = 50%Z -> max_max_iter e = 2000%Z ->
  (50 <= max_iter e <= 2000)%Z ->
  let e' := snd (run c e) in
  min_iter e' = 50%Z /\ max_max_iter e' = 2000%Z /\
  (50 <= max_iter e' <= 2000)%Z.
Proof.
  intros Hc Hmin Hmax Hm.
  destruct c as [x y k|dx dy| |w h|f|f]; cbn [run step_nonneg] in *; cbn zeta.
  - pose proof (zoom_at_point_frame x y k e) as (H1 & H2 & H3 & _).
    cbn zeta in *. rewrite H1, H2, H3. auto.
  - pose proof (pan_frame dx dy e) as (H1 & H2 & H3 & _).
    cbn zeta in *. rewrite H1, H2, H3. auto.
  - unfold reset_view. run_M. fields. split; [exact Hmin|].
    split; [exact Hmax|lia].
  - unfold resize, fdiv. run_M. split_div; fields; auto.
  - unfold increase_iterations. run_M. fields. split; [exact Hmin|].
    split; [exact Hmax|lia].
  - unfold decrease_iterations. run_M. fields. split; [exact Hmin|].
    split; [exact Hmax|lia].
Qed.

(** X10.  From a freshly constructed engine, every sequence of commands
    whose [increase_iterations] and [decrease_iterations] steps are not
    negative keeps [max_iter] in [[50, 2000]]. *)
Theorem max_iter_stays_in_range (w h : Z) (e0 : MandelbrotEngine)
    (cs : list command) :
  engine_init w h = Ok e0 -> Forall step_nonneg cs ->
  (50 <= max_iter (run_all cs e0) <= 2000)%Z.
Proof.
  intros Hinit Hcs.
  assert (H0 : min_iter e0 = 50%Z /\ max_max_iter e0 = 2000%Z /\
               (50 <= max_iter e0 <= 2000)%Z).
  { unfold engine_init, fdiv in Hinit. run_M.
    destruct (Req_dec_T (IZR h) 0); [discriminate|].
    inversion Hinit. fields. lia. }
  clear Hinit. revert e0 H0.
  induction Hcs as [|c cs Hc _ IH]; intros e0 (Hmin & Hmax & Hm); cbn.
  - exact Hm.
  - apply IH. exact (run_max_iter c e0 Hc Hmin Hmax Hm).
Qed.

Lemma max_iter_stays_in_range_witness :
  (50 <= max_iter
           (run_all [IncreaseIterations 5000; DecreaseIterations 50;
                     ZoomAtPoint 1 1 2; DecreaseIterations 9000]
              (mkEngine 800 600 (-0.5) 0 1 (IZR 800 / IZR 600) 100 50 2000
                 None None 0 (800 * 600))) <= 2000)%Z.
Proof.
  apply (max_iter_stays_in_range 800 600); [apply engine_init_Ok; lia|].
  repeat constructor; cbn; lia.
Defined.

(** ** [pan] *)

Lemma pan_Ok (dx dy : Z) (e : MandelbrotEngine) :
  zoom e <> 0 -> aspect_ratio e <> 0 -> width e <> 0%Z -> height e <> 0%Z ->
  pan dx dy e =
  (Ok tt,
   set_y_center
     (y_center e
      + IZR dy * ((y_center e + 3 / zoom e / aspect_ratio e / 2
                   - (y_center e - 3 / zoom e / aspect_ratio e / 2))
                  / IZR (height e)))
     (set_x_center
        (x_center e
         + IZR dx * ((x_center e + 3 / zoom e / 2
                      - (x_center e - 3 / zoom e / 2)) / IZR (width e)))
        e)).
Proof.
  intros Hz Ha Hw Hh. unfold pan. run_M.
  rewrite (get_bounds_Ok e Hz Ha). unfold fdiv. run_M.
  destruct (Req_dec_T (IZR (width e)) 0) as [H0|_];
    [apply eq_IZR in H0; contradiction|].
  destruct (Req_dec_T (IZR (height e)) 0) as [H0|_];
    [apply eq_IZR in H0; contradiction|].
  reflexivity.
Qed.

(** X11.  In every reachable state with a positive width and height,
    [pan] raises nothing, changes only the centre and moves it in the
    direction of the offsets: [x_center] does not decrease for [dx >= 0]
    and does not increase for [dx <= 0], and likewise [y_center] with
    [dy]; [pan(0, 0)] leaves the centre where it is.  The cache is not
    cleared. *)
Theorem pan_moves_centre (dx dy : Z) (e : MandelbrotEngine) :
  reachable e -> (0 < width e)%Z -> (0 < height e)%Z ->
  exists e1,
    pan dx dy e = (Ok tt, e1) /\
    e1 = set_y_center (y_center e1) (set_x_center (x_center e1) e) /\
    ((0 <= dx)%Z -> x_center e <= x_center e1) /\
    ((dx <= 0)%Z -> x_center e1 <= x_center e) /\
    ((0 <= dy)%Z -> y_center e <= y_center e1) /\
    ((dy <= 0)%Z -> y_center e1 <= y_center e).
Proof.
  intros Hreach Hw Hh.
  destruct (reachable_invariants e Hreach) as (Hv & _ & _ & _).
  pose proof (aspect_nonzero e Hv ltac:(lia) ltac:(lia)) as Ha.
  destruct Hv as (Hz & Har & _).
  assert (Hw' : 0 < IZR (width e)) by (apply IZR_lt; lia).
  assert (Hh' : 0 < IZR (height e)) by (apply IZR_lt; lia).
  assert (Hvw : 0 < 3 / zoom e) by (apply Rdiv_lt_0_compat; lra).
  assert (Hvh : 0 < 3 / zoom e / aspect_ratio e).
  { apply Rdiv_lt_0_compat; [exact Hvw|]. rewrite (Har ltac:(lia)).
    apply Rdiv_lt_0_compat; assumption. }
  rewrite (pan_Ok dx dy e) by (try exact Ha; first [lra | lia]).
  eexists. split; [reflexivity|]. fields.
  split; [reflexivity|].
  set (vh := 3 / zoom e / aspect_ratio e) in *. set (vw := 3 / zoom e) in *.
  assert (Hpw : 0 < (x_center e + vw / 2 - (x_center e - vw / 2))
                    / IZR (width e)).
  { apply Rdiv_lt_0_compat; lra. }
  assert (Hph : 0 < (y_center e + vh / 2 - (y_center e - vh / 2))
                    / IZR (height e)).
  { apply Rdiv_lt_0_compat; lra. }
  repeat split; intros Hd; apply IZR_le in Hd; nra.
Qed.

Lemma pan_moves_centre_witness :
  let e := mkEngine 800 600 (-0.5) 0 1 (IZR 800 / IZR 600) 100 50 2000
             None None 0 (800 * 600) in
  exists e1,
    pan 30 (-40) e = (Ok tt, e1) /\
    e1 = set_y_center (y_center e1) (set_x_center (x_center e1) e) /\
    ((0 <= 30)%Z -> x_center e <= x_center e1) /\
    ((30 <= 0)%Z -> x_center e1 <= x_center e) /\
    ((0 <= -40)%Z -> y_center e <= y_center e1) /\
    ((-40 <= 0)%Z -> y_center e1 <= y_center e).
Proof.
  intros e.
  apply (pan_moves_centre 30 (-40) e); subst e; fields; [|lia|lia].
  apply (reach_init 800 600). apply engine_init_Ok. lia.
Defined.

(** ** A [resize] that fails *)

Lemma raised_by_division (e : MandelbrotEngine) (x y : Z) (k : R) :
  height e = 0%Z ->
  zoom_at_point x y k e = (Raise ZeroDivisionError, e).
Proof.
  intros Hh. unfold zoom_at_point, get_bounds, fdiv. run_M.
  repeat split_div; try reflexivity.
  exfalso. rewrite Hh in *. auto.
Qed.

Lemma pan_raised_by_division (e : MandelbrotEngine) (dx dy : Z) :
  height e = 0%Z -> pan dx dy e = (Raise ZeroDivisionError, e).
Proof.
  intros Hh. unfold pan, get_bounds, fdiv. run_M.
  repeat split_div; try reflexivity.
  exfalso. rewrite Hh in *. auto.
Qed.

(** X12.  [resize(w, 0)] raises [ZeroDivisionError] after it has stored
    the new width and the height 0, and before it updates
    [aspect_ratio], [total_pixels] or the cache; in the engine it leaves
    behind every [zoom_at_point] and every [pan] raises
    [ZeroDivisionError] and changes nothing. *)
Theorem resize_zero_height (w : Z) (e : MandelbrotEngine) :
  exists e',
    resize w 0 e = (Raise ZeroDivisionError, e') /\
    width e' = w /\ height e' = 0%Z /\
    aspect_ratio e' = aspect_ratio e /\ total_pixels e' = total_pixels e /\
    last_params e' = last_params e /\ cached_result e' = cached_result e /\
    (forall x y k, zoom_at_point x y k e' = (Raise ZeroDivisionError, e')) /\
    (forall dx dy, pan dx dy e' = (Raise ZeroDivisionError, e')).
Proof.
  exists (set_height 0 (set_width w e)). split.
  - unfold resize, fdiv. run_M.
    destruct (Req_dec_T (IZR 0) 0) as [_|H0]; [reflexivity|].
    exfalso. apply H0. reflexivity.
  - fields. repeat split; try reflexivity.
    + intros x y k. apply raised_by_division. reflexivity.
    + intros dx dy. apply pan_raised_by_division. reflexivity.
Qed.

(** ** The view *)

(** X13.  In every reachable state with a positive width and height,
    [get_bounds] raises nothing and returns an ordered rectangle that
    holds the centre: [x_min <= x_center <= x_max] and
    [y_min <= y_center <= y_max]. *)
Theorem bounds_of_view (e : MandelbrotEngine) :
  reachable e -> (0 < width e)%Z -> (0 < height e)%Z ->
  exists x_min x_max y_min y_max,
    get_bounds e = Ok (x_min, x_max, y_min, y_max) /\
    x_min <= x_center e <= x_max /\ y_min <= y_center e <= y_max.
Proof.
  intros Hreach Hw Hh.
  destruct (reachable_invariants e Hreach) as (Hv & _ & _ & _).
  pose proof (aspect_nonzero e Hv ltac:(lia) ltac:(lia)) as Ha.
  destruct Hv as (Hz & Har & _).
  assert (Hw' : 0 < IZR (width e)) by (apply IZR_lt; lia).
  assert (Hh' : 0 < IZR (height e)) by (apply IZR_lt; lia).
  rewrite (get_bounds_Ok e) by (try exact Ha; lra).
  do 4 eexists. split; [reflexivity|].
  assert (Hvw : 0 < 3 / zoom e) by (apply Rdiv_lt_0_compat; lra).
  assert (Hvh : 0 < 3 / zoom e / aspect_ratio e).
  { apply Rdiv_lt_0_compat; [exact Hvw|]. rewrite (Har ltac:(lia)).
    apply Rdiv_lt_0_compat; assumption. }
  split; lra.
Qed.

Lemma bounds_of_view_witness :
  let e := mkEngine 800 600 (-0.5) 0 1 (IZR 800 / IZR 600) 100 50 2000
             None None 0 (800 * 600) in
  exists x_min x_max y_min y_max,
    get_bounds e = Ok (x_min, x_max, y_min, y_max) /\
    x_min <= x_center e <= x_max /\ y_min <= y_center e <= y_max.
Proof.
  intros e.
  apply (bounds_of_view e); subst e; fields; [|lia|lia].
  apply (reach_init 800 600). apply engine_init_Ok. lia.
Defined.

(** X14.  In every reachable state, [zoom_at_point] with a cursor on a
    pixel of the window, [0 <= screen_x < width] and
    [0 <= screen_y < height], raises nothing and puts the centre at the
    plane point under the cursor, which lies in the rectangle
    [get_bounds] gave before the call. *)
Theorem zoom_centre_in_view (e : MandelbrotEngine) (x y : Z) (k : R) :
  reachable e -> (0 <= x < width e)%Z -> (0 <= y < height e)%Z ->
  exists x_min x_max y_min y_max e',
    get_bounds e = Ok (x_min, x_max, y_min, y_max) /\
    zoom_at_point x y k e = (Ok tt, e') /\
    x_center e' = x_min + (x_max - x_min) * IZR x / IZR (width e) /\
    y_center e' = y_min + (y_max - y_min) * IZR y / IZR (height e) /\
    x_min <= x_center e' <= x_max /\ y_min <= y_center e' <= y_max.
Proof.
  intros Hreach Hx Hy.
  destruct (reachable_invariants e Hreach) as (Hv & _ & _ & _).
  pose proof (aspect_nonzero e Hv ltac:(lia) ltac:(lia)) as Ha.
  destruct Hv as (Hz & Har & _).
  assert (Hw' : 0 < IZR (width e)) by (apply IZR_lt; lia).
  assert (Hh' : 0 < IZR (height e)) by (apply IZR_lt; lia).
  assert (Hx0 : 0 <= IZR x <= IZR (width e)) by (split; apply IZR_le; lia).
  assert (Hy0 : 0 <= IZR y <= IZR (height e)) by (split; apply IZR_le; lia).
  rewrite (get_bounds_Ok e) by (try exact Ha; lra).
  rewrite (zoom_at_point_Ok x y k e) by (try exact Ha; first [lra | lia]).
  do 5 eexists. split; [reflexivity|]. split; [reflexivity|].
  fields. unfold screen_to_plane.
  assert (Hvw : 0 < 3 / zoom e) by (apply Rdiv_lt_0_compat; lra).
  assert (Hvh : 0 < 3 / zoom e / aspect_ratio e).
  { apply Rdiv_lt_0_compat; [exact Hvw|]. rewrite (Har ltac:(lia)).
    apply Rdiv_lt_0_compat; assumption. }
  assert (Hfx : 0 <= IZR x / IZR (width e) <= 1).
  { split; [apply Rmult_le_pos; [lra|left; apply Rinv_0_lt_compat; lra]|].
    apply Rmult_le_reg_r with (IZR (width e)); [lra|].
    replace (IZR x / IZR (width e) * IZR (width e)) with (IZR x)
      by (field; lra). lra. }
  assert (Hfy : 0 <= IZR y / IZR (height e) <= 1).
  { split; [apply Rmult_le_pos; [lra|left; apply Rinv_0_lt_compat; lra]|].
    apply Rmult_le_reg_r with (IZR (height e)); [lra|].
    replace (IZR y / IZR (height e) * IZR (height e)) with (IZR y)
      by (field; lra). lra. }
  split; [reflexivity|]. split; [reflexivity|].
  set (vw := 3 / zoom e) in *. set (vh := 3 / zoom e / aspect_ratio e) in *.
  replace ((x_center e + vw / 2 - (x_center e - vw / 2)) * IZR x
           / IZR (width e)) with (vw * (IZR x / IZR (width e)))
    by (field; lra).
  replace ((y_center e + vh / 2 - (y_center e - vh / 2)) * IZR y
           / IZR (height e)) with (vh * (IZR y / IZR (height e)))
    by (field; lra).
  split; nra.
Qed.

Lemma zoom_centre_in_view_witness :
  let e := mkEngine 800 600 (-0.5) 0 1 (IZR 800 / IZR 600) 100 50 2000
             None None 0 (800 * 600) in
  exists x_min x_max y_min y_max e',
    get_bounds e = Ok (x_min, x_max, y_min, y_max) /\
    zoom_at_point 200 450 1.2 e = (Ok tt, e') /\
    x_center e' = x_min + (x_max - x_min) * IZR 200 / IZR (width e) /\
    y_center e' = y_min + (y_max - y_min) * IZR 450 / IZR (height e) /\
    x_min <= x_center e' <= x_max /\ y_min <= y_center e' <= y_max.
Proof.
  intros e.
  apply (zoom_centre_in_view e 200 450 1.2); subst e; fields;
    try lia.
  apply (reach_init 800 600). apply engine_init_Ok. lia.
Defined.

(** * Further properties of the palette *)

(** ** What [get_color] and [next_palette] leave alone *)

Lemma get_color_state (p : ColorPalette) (v m : Z) :
  snd (get_color v m p) = p \/
  exists c,
    color_cache p !! cache_key p v m = None /\
    compute_color p v m = Ok c /\
    (size (color_cache p) < cache_size p)%nat /\
    snd (get_color v m p)
    = set_color_cache (<[cache_key p v m := c]> (color_cache p)) p.
Proof.
  destruct (color_cache p !! cache_key p v m) as [c|] eqn:Hk.
  - left. rewrite (get_color_hit p v m c Hk). reflexivity.
  - rewrite (get_color_miss p v m Hk).
    destruct (compute_color p v m) as [c|x]; [|left; reflexivity].
    destruct (Nat.ltb_spec (size (color_cache p)) (cache_size p));
      [|left; reflexivity].
    right. exists c. auto.
Qed.

Lemma get_color_palette_ok (p : ColorPalette) (v m : Z) :
  palette_ok p -> palette_ok (snd (get_color v m p)).
Proof.
  intros Hp.
  destruct (get_color_state p v m) as [-> | (c & Hk & _ & Hroom & ->)];
    [exact Hp|].
  destruct Hp as (Hi & Hc & Hcs & Hsp & Ht & Hsz).
  unfold palette_ok. cbn [current_palette_index current_palette color_cache
    cache_size animation_speed animation_time set_color_cache].
  repeat (split; [assumption|]).
  rewrite map_size_insert_None by exact Hk. lia.
Qed.

Lemma next_palette_fields (p : ColorPalette) :
  let p' := snd (next_palette p) in
  current_palette_index p'
  = ((current_palette_index p + 1) mod 10)%nat /\
  current_palette p' = nth (current_palette_index p') palettes RAINBOW /\
  color_cache p' = ∅ /\ cache_size p' = cache_size p /\
  animation_time p' = animation_time p /\
  animation_speed p' = animation_speed p.
Proof. unfold next_palette. run_M. cbn. repeat split; reflexivity. Qed.

Lemma next_palette_ok (p : ColorPalette) :
  palette_ok p -> palette_ok (snd (next_palette p)).
Proof.
  intros (Hi & Hc & Hcs & Hsp & Ht & Hsz).
  pose proof (next_palette_fields p) as (H1 & H2 & H3 & H4 & H5 & H6).
  cbn zeta in *. unfold palette_ok.
  rewrite H3, H4, H5, H6. split.
  - rewrite H1. apply Nat.mod_upper_bound. lia.
  - split; [exact H2|]. split; [exact Hcs|]. split; [exact Hsp|].
    split; [exact Ht|]. rewrite map_size_empty. lia.
Qed.

Lemma apply_colors_ok (fractal_data : grid) (p : ColorPalette) :
  palette_ok p -> palette_ok (snd (apply_colors fractal_data p)).
Proof.
  intros Hp. unfold apply_colors. run_M.
  set (p1 := set_animation_time _ p).
  assert (Hp1 : palette_ok p1).
  { destruct Hp as (Hi & Hc & Hcs & Hsp & Ht & Hsz).
    subst p1. unfold palette_ok.
    cbn [current_palette_index current_palette color_cache cache_size
         animation_speed animation_time set_animation_time].
    repeat (split; [assumption|]). split; [|exact Hsz].
    pose proof PI_RGT_0 as Hpi.
    unfold Rgtb. destruct (Rgt_dec _ _); lra. }
  destruct (np_max (concat fractal_data)) as [mx|x]; [|exact Hp1].
  match goal with
  | |- context [for_each_M ?f ?xs ?s] =>
      assert (Hloop : palette_ok (snd (for_each_M f xs s)));
      [ apply for_each_M_preserves; [|exact Hp1];
        intros x s0 Hs; pose proof (get_color_palette_ok s0 x mx Hs) as Hg;
        destruct (get_color x mx s0) as [[c|e] s1]; exact Hg
      | destruct (for_each_M f xs s) as [[cm|e] s']; exact Hloop ]
  end.
Qed.

Lemma reachable_palette_ok (p : ColorPalette) :
  palette_reachable p -> palette_ok p.
Proof.
  induction 1 as [|p _ IH|v m p _ IH|d p _ IH].
  - unfold palette_ok, palette_init. cbn.
    pose proof PI_RGT_0. rewrite map_size_empty.
    repeat split; try reflexivity; try lia; lra.
  - apply next_palette_ok, IH.
  - apply get_color_palette_ok, IH.
  - apply apply_colors_ok, IH.
Qed.

(** ** Cycling through the palettes *)

Lemma next_palette_iter (n : nat) (p : ColorPalette) :
  let q := Nat.iter n (fun q => snd (next_palette q)) p in
  (current_palette_index q mod 10
   = (current_palette_index p + n) mod 10)%nat /\
  animation_time q = animation_time p /\
  (n <> 0%nat ->
   (current_palette_index q < 10)%nat /\
   current_palette q = nth (current_palette_index q) palettes RAINBOW /\
   color_cache q = ∅).
Proof.
  induction n as [|n IH]; cbn zeta.
  - rewrite Nat.add_0_r. split; [reflexivity|]. split; [reflexivity|].
    intros H. contradiction.
  - rewrite Nat.iter_succ.
    set (q := Nat.iter n (fun q => snd (next_palette q)) p) in *.
    cbn zeta in IH. destruct IH as (Hi & Ht & _).
    pose proof (next_palette_fields q) as (H1 & H2 & H3 & _ & H5 & _).
    cbn zeta in *. split.
    + rewrite H1, Nat.Div0.mod_mod, <- Nat.Div0.add_mod_idemp_l, Hi.
      rewrite Nat.Div0.add_mod_idemp_l. f_equal. lia.
    + split; [rewrite H5; exact Ht|]. intros _.
      split; [rewrite H1; apply Nat.mod_upper_bound; lia|]. auto.
Qed.

(** X15.  In every reachable palette state the index is below 10 and
    [current_palette] is the palette at that index; ten [next_palette]
    calls come back to the same index and palette, with an empty cache
    and the animation time they started from. *)
Theorem next_palette_cycles (p : ColorPalette) :
  palette_reachable p ->
  let p10 := Nat.iter 10 (fun q => snd (next_palette q)) p in
  (current_palette_index p < 10)%nat /\
  current_palette p = nth (current_palette_index p) palettes RAINBOW /\
  current_palette_index p10 = current_palette_index p /\
  current_palette p10 = current_palette p /\
  color_cache p10 = ∅ /\
  animation_time p10 = animation_time p.
Proof.
  intros Hreach p10.
  destruct (reachable_palette_ok p Hreach) as (Hi & Hc & _).
  split; [exact Hi|]. split; [exact Hc|].
  pose proof (next_palette_iter 10 p) as (Hidx & Ht & Hrest).
  cbn zeta in *. fold p10 in Hidx, Ht, Hrest.
  destruct Hrest as (Hi10 & Hc10 & Hcache); [discriminate|].
  assert (Heq : current_palette_index p10 = current_palette_index p).
  { rewrite (Nat.mod_small _ _ Hi10) in Hidx. rewrite Hidx.
    rewrite <- Nat.Div0.add_mod_idemp_r. change (10 mod 10)%nat with 0%nat.
    rewrite Nat.add_0_r. apply Nat.mod_small. exact Hi. }
  split; [exact Heq|]. split; [rewrite Hc10, Heq, Hc; reflexivity|].
  split; [exact Hcache|exact Ht].
Qed.

Lemma next_palette_cycles_witness :
  let p := snd (get_color 3 10 (snd (next_palette palette_init))) in
  let p10 := Nat.iter 10 (fun q => snd (next_palette q)) p in
  (current_palette_index p < 10)%nat /\
  current_palette p = nth (current_palette_index p) palettes RAINBOW /\
  current_palette_index p10 = current_palette_index p /\
  current_palette p10 = current_palette p /\
  color_cache p10 = ∅ /\
  animation_time p10 = animation_time p.
Proof.
  intros p. apply (next_palette_cycles p).
  apply palette_reach_get, palette_reach_next, palette_reach_init.
Defined.

(** ** Bounds the palette keeps *)

(** X16.  In every reachable palette state the colour cache holds at
    most 1000 entries. *)
Theorem color_cache_bounded (p : ColorPalette) :
  palette_reachable p -> (size (color_cache p) <= 1000)%nat.
Proof. intros Hreach. apply (reachable_palette_ok p Hreach). Qed.

Lemma color_cache_bounded_witness :
  (size (color_cache (snd (get_color 3 10 palette_init))) <= 1000)%nat.
Proof.
  apply color_cache_bounded. apply palette_reach_get, palette_reach_init.
Defined.

(** X17.  In every reachable palette state [animation_time] lies in
    [[0, 2 * pi]] and [animation_speed] is still 0.02. *)
Theorem animation_time_bounded (p : ColorPalette) :
  palette_reachable p ->
  0 <= animation_time p <= 2 * PI /\ animation_speed p = 0.02.
Proof.
  intros Hreach.
  destruct (reachable_palette_ok p Hreach) as (_ & _ & _ & Hs & Ht & _).
  auto.
Qed.

Lemma animation_time_bounded_witness :
  let p := snd (apply_colors [[1; 2]; [3; 3]]%Z palette_init) in
  0 <= animation_time p <= 2 * PI /\ animation_speed p = 0.02.
Proof.
  intros p. apply animation_time_bounded.
  apply palette_reach_apply, palette_reach_init.
Defined.

(** ** The colour cache as a memo table *)

Lemma cache_key_set_cache (p : ColorPalette) (v m : Z)
    (c : gmap (Z * Z * nat * Z) rgb) :
  cache_key (set_color_cache c p) v m = cache_key p v m.
Proof. reflexivity. Qed.

(** X18.  When [get_color(v, m)] returns a colour, the same call made
    again at once returns that colour and changes nothing. *)
Theorem get_color_again (p p1 : ColorPalette) (v m : Z) (c : rgb) :
  get_color v m p = (Ok c, p1) -> get_color v m p1 = (Ok c, p1).
Proof.
  intros Hget.
  destruct (color_cache p !! cache_key p v m) as [c0|] eqn:Hk.
  - rewrite (get_color_hit p v m c0 Hk) in Hget. inversion Hget. subst.
    apply get_color_hit. exact Hk.
  - pose proof Hget as Hget'.
    rewrite (get_color_miss p v m Hk) in Hget.
    destruct (compute_color p v m) as [c0|x]; [|discriminate].
    destruct (size (color_cache p) <? cache_size p)%nat;
      inversion Hget; subst.
    + apply get_color_hit. rewrite cache_key_set_cache.
      cbn [color_cache set_color_cache]. apply lookup_insert_eq.
    + exact Hget'.
Qed.

Lemma get_color_again_witness :
  exists c p1,
    get_color 3 10 palette_init = (Ok c, p1) /\
    get_color 3 10 p1 = (Ok c, p1).
Proof.
  destruct (get_color_returns palette_init 3 10) as (c & p1 & Hget); [lia|].
  exists c, p1. split; [exact Hget|].
  exact (get_color_again palette_init p1 3 10 c Hget).
Defined.

(** X19.  [get_color], raising or not, changes neither the selected
    palette nor the animation time; it keeps every entry of the cache
    and adds at most one. *)
Theorem get_color_only_grows_cache (p : ColorPalette) (v m : Z) :
  let p' := snd (get_color v m p) in
  current_palette_index p' = current_palette_index p /\
  current_palette p' = current_palette p /\
  animation_time p' = animation_time p /\
  animation_speed p' = animation_speed p /\
  cache_size p' = cache_size p /\
  color_cache p ⊆ color_cache p' /\
  (size (color_cache p') <= S (size (color_cache p)))%nat.
Proof.
  cbn zeta.
  destruct (get_color_state p v m) as [-> | (c & Hk & _ & _ & ->)].
  - repeat split; try reflexivity. lia.
  - cbn [current_palette_index current_palette color_cache cache_size
         animation_speed animation_time set_color_cache].
    repeat split; try reflexivity.
    + apply insert_subseteq. exact Hk.
    + rewrite map_size_insert_None by exact Hk. lia.
Qed.

(** ** [apply_colors] *)

Lemma insert_sorted_In (v x : Z) (l : list Z) :
  In x (insert_sorted v l) <-> x = v \/ In x l.
Proof.
  induction l as [|u l IH]; cbn [insert_sorted].
  - cbn. intuition.
  - destruct (Z.ltb_spec v u).
    + cbn. intuition.
    + destruct (Z.eqb_spec v u) as [->|Hne].
      * cbn. intuition.
      * cbn [In]. rewrite IH. intuition.
Qed.

Lemma np_unique_In (x : Z) (l : list Z) : In x (np_unique l) <-> In x l.
Proof.
  unfold np_unique. induction l as [|v l IH]; cbn [fold_right]; [reflexivity|].
  rewrite insert_sorted_In, IH. cbn. intuition.
Qed.

Lemma fold_max_spec (vs : list Z) (v : Z) :
  let r := fold_left Z.max vs v in
  (r = v \/ In r vs) /\ (v <= r)%Z /\ forall u, In u vs -> (u <= r)%Z.
Proof.
  revert v. induction vs as [|w vs IH]; intros v; cbn [fold_left].
  - cbn. split; [left; reflexivity|]. split; [lia|]. intros u [].
  - specialize (IH (Z.max v w)). cbn zeta in *.
    destruct IH as (Hin & Hle & Hall). split.
    + destruct Hin as [Hin|Hin]; [|right; right; exact Hin].
      destruct (Z.max_spec v w) as [[_ Hm]|[_ Hm]].
      * right. left. congruence.
      * left. congruence.
    + split; [lia|]. intros u [<-|Hu]; [lia|]. apply Hall, Hu.
Qed.

Lemma np_max_spec (l : list Z) (mx : Z) :
  np_max l = Ok mx -> In mx l /\ forall u, In u l -> (u <= mx)%Z.
Proof.
  destruct l as [|v vs]; cbn [np_max]; [discriminate|].
  intros H. inversion H. subst mx.
  destruct (fold_max_spec vs v) as (Hin & Hle & Hall). cbn zeta in *.
  split.
  - destruct Hin as [-> | Hin]; [left; reflexivity|right; exact Hin].
  - intros u [<-|Hu]; [exact Hle|apply Hall, Hu].
Qed.

Lemma np_max_total (l : list Z) : l <> [] -> exists mx, np_max l = Ok mx.
Proof.
  destruct l as [|v vs]; [contradiction|]. intros _. eexists. reflexivity.
Qed.

Lemma uint8_channels (c : rgb) :
  channels_ok c ->
  (let '(r, g, b) := c in (uint8 r, uint8 g, uint8 b)) = c.
Proof.
  destruct c as [[r g] b]. intros (Hr & Hg & Hb). unfold uint8.
  rewrite !Z.mod_small by lia. reflexivity.
Qed.

(** The loop that fills [color_map]. *)
Lemma color_map_loop (mx : Z) (body : Z -> M ColorPalette (Z * rgb))
    (xs : list Z) :
  (forall x s, body x s =
               match get_color x mx s with
               | (Ok c, s') => (Ok (x, c), s')
               | (Raise e, s') => (Raise e, s')
               end) ->
  (forall x, In x xs -> (0 <= x)%Z) ->
  forall s, cache_sound s ->
  exists ys s',
    for_each_M body xs s = (Ok ys, s') /\
    map fst ys = xs /\
    Forall (fun vc => channels_ok (snd vc) /\
                      ((mx <= fst vc)%Z -> snd vc = (0, 0, 0)%Z)) ys.
Proof.
  intros Hbody. induction xs as [|x xs IH]; intros Hpos s Hs.
  - exists [], s. cbn. auto.
  - cbn [for_each_M]. run_M. rewrite Hbody.
    destruct (get_color_returns s x mx) as (c & s1 & Hget);
      [apply Hpos; left; reflexivity|].
    rewrite Hget.
    assert (Hs1 : cache_sound s1).
    { replace s1 with (snd (get_color x mx s)) by (rewrite Hget; reflexivity).
      apply get_color_sound, Hs. }
    destruct (IH (fun y Hy => Hpos y (or_intror Hy)) s1 Hs1)
      as (ys & s' & Hloop & Hkeys & Hall).
    rewrite Hloop. exists ((x, c) :: ys), s'.
    split; [reflexivity|]. split; [cbn; rewrite Hkeys; reflexivity|].
    constructor; [|exact Hall]. cbn [fst snd].
    destruct (get_color_answer s x mx c s1 Hs Hget) as [Hch Hbl].
    split; [apply Hch, Hpos; left; reflexivity | exact Hbl].
Qed.

Lemma color_map_lookup (ys : list (Z * rgb)) (v : Z) (mx : Z) :
  Forall (fun vc => channels_ok (snd vc) /\
                    ((mx <= fst vc)%Z -> snd vc = (0, 0, 0)%Z)) ys ->
  In v (map fst ys) ->
  exists c, (list_to_map ys : gmap Z rgb) !! v = Some c /\
            channels_ok c /\ ((mx <= v)%Z -> c = (0, 0, 0)%Z).
Proof.
  intros Hall Hin.
  destruct ((list_to_map ys : gmap Z rgb) !! v) as [c|] eqn:Hl.
  - exists c. split; [reflexivity|].
    apply elem_of_list_to_map_2 in Hl.
    rewrite Forall_forall in Hall. exact (Hall (v, c) Hl).
  - exfalso. apply not_elem_of_list_to_map_2 in Hl. apply Hl.
    apply in_map_iff in Hin. destruct Hin as (vc & Hfst & Hvc).
    apply list_elem_of_fmap. exists vc. split; [symmetry; exact Hfst|].
    apply list_elem_of_In. exact Hvc.
Qed.

Lemma apply_colors_spec (fractal_data : grid) (p : ColorPalette) :
  cache_sound p ->
  concat fractal_data <> [] ->
  (forall v, In v (concat fractal_data) -> (0 <= v)%Z) ->
  exists (f : Z -> rgb) (p' : ColorPalette),
    apply_colors fractal_data p = (Ok (map (map f) fractal_data), p') /\
    forall v, In v (concat fractal_data) ->
      channels_ok (f v) /\
      ((forall u, In u (concat fractal_data) -> (u <= v)%Z) ->
       f v = (0, 0, 0)%Z).
Proof.
  intros Hp Hne Hpos.
  destruct (np_max_total _ Hne) as [mx Hmx].
  destruct (np_max_spec _ mx Hmx) as [Hmx_in Hmx_le].
  unfold apply_colors. run_M. rewrite Hmx.
  set (p1 := set_animation_time _ p).
  match goal with
  | |- context [for_each_M ?body ?xs p1] =>
      destruct (color_map_loop mx body xs) with (s := p1)
        as (ys & s' & Hloop & Hkeys & Hall);
      [ intros x s; reflexivity
      | intros x Hx; apply Hpos, np_unique_In, Hx
      | exact Hp
      | rewrite Hloop ]
  end.
  eexists. exists s'. split; [reflexivity|].
  intros v Hv. cbv beta.
  destruct (color_map_lookup ys v mx Hall) as (c & Hl & Hc & Hblack).
  { rewrite Hkeys. apply np_unique_In, Hv. }
  rewrite Hl. cbn [default from_option]. unfold Datatypes.id.
  rewrite (uint8_channels c Hc).
  split; [exact Hc|]. intros Hmaxv. apply Hblack. apply Hmaxv, Hmx_in.
Qed.

(** X20.  On an array without entries [apply_colors] raises
    [ValueError] (from [np.max]) after it has advanced the animation
    time: the palette is left with the new time. *)
Theorem apply_colors_empty (fractal_data : grid) (p : ColorPalette) :
  concat fractal_data = [] ->
  apply_colors fractal_data p =
  (Raise ValueError,
   set_animation_time
     (if Rgtb (animation_time p + animation_speed p) (2 * PI)
      then 0
      else animation_time p + animation_speed p) p).
Proof.
  intros Hempty. unfold apply_colors. run_M. rewrite Hempty. reflexivity.
Qed.

Lemma apply_colors_empty_witness :
  apply_colors [[]; []] palette_init =
  (Raise ValueError,
   set_animation_time
     (if Rgtb (animation_time palette_init + animation_speed palette_init)
           (2 * PI)
      then 0
      else animation_time palette_init + animation_speed palette_init)
     palette_init).
Proof. apply (apply_colors_empty [[]; []] palette_init). reflexivity. Defined.

(** X21.  In every reachable palette state, on an array that has entries
    and no negative one, [apply_colors] raises nothing and paints each
    pixel by its value alone: equal values get equal colours, every
    channel is in [[0, 255]], and the pixels holding the largest value of
    the array are black, whether or not that value is an iteration
    cap. *)
Theorem apply_colors_paints (fractal_data : grid) (p : ColorPalette) :
  palette_reachable p ->
  concat fractal_data <> [] ->
  (forall v, In v (concat fractal_data) -> (0 <= v)%Z) ->
  exists (f : Z -> rgb) (p' : ColorPalette),
    apply_colors fractal_data p = (Ok (map (map f) fractal_data), p') /\
    forall v, In v (concat fractal_data) ->
      channels_ok (f v) /\
      ((forall u, In u (concat fractal_data) -> (u <= v)%Z) ->
       f v = (0, 0, 0)%Z).
Proof.
  intros Hreach. apply apply_colors_spec, reachable_cache_sound, Hreach.
Qed.

Lemma apply_colors_paints_witness :
  exists (f : Z -> rgb) (p' : ColorPalette),
    apply_colors [[1; 7]; [7; 3]]%Z palette_init
    = (Ok (map (map f) [[1; 7]; [7; 3]]%Z), p') /\
    forall v, In v (concat [[1; 7]; [7; 3]]%Z) ->
      channels_ok (f v) /\
      ((forall u, In u (concat [[1; 7]; [7; 3]]%Z) -> (u <= v)%Z) ->
       f v = (0, 0, 0)%Z).
Proof.
  apply (apply_colors_paints [[1; 7]; [7; 3]]%Z palette_init).
  - apply palette_reach_init.
  - discriminate.
  - cbn. intros v Hv. intuition lia.
Defined.

(** ** From [generate] to [apply_colors] *)

Lemma concat_cell (g : grid) (v : Z) :
  In v (concat g) ->
  exists i j, cell g (Z.of_nat i) (Z.of_nat j) = Some v /\
              (i < length g)%nat /\
              exists row, nth_error g i = Some row /\ (j < length row)%nat.
Proof.
  intros Hin. apply in_concat in Hin. destruct Hin as (row & Hrow & Hv).
  apply In_nth_error in Hrow. destruct Hrow as [i Hi].
  apply In_nth_error in Hv. destruct Hv as [j Hj].
  exists i, j. unfold cell. rewrite !Nat2Z.id, Hi. split; [exact Hj|].
  split.
  - apply nth_error_Some. rewrite Hi. discriminate.
  - exists row. split; [reflexivity|].
    apply nth_error_Some. rewrite Hj. discriminate.
Qed.

Lemma grid_values (h w : Z) (x_min x_max y_min y_max : R) (m : Z)
    (g : grid) (v : Z) :
  (0 <= m <= 2147483647)%Z ->
  mandelbrot_calculation h w x_min x_max y_min y_max m = Ok g ->
  In v (concat g) -> (0 <= v <= m)%Z.
Proof.
  intros Hm Hg Hin.
  destruct (mandelbrot_shape _ _ _ _ _ _ _ g Hg) as [Hlen Hrows].
  destruct (concat_cell g v Hin) as (i & j & Hc & Hi & row & Hrow & Hj).
  rewrite Forall_forall in Hrows.
  assert (Hw : length row = Z.to_nat w).
  { apply Hrows. apply list_elem_of_In.
    apply nth_error_In with (n := i). exact Hrow. }
  rewrite (mandelbrot_pixel _ _ _ _ _ _ _ g (Z.of_nat i) (Z.of_nat j) Hg)
    in Hc by lia.
  inversion Hc. apply pixel_value_range. lia.
Qed.

(** X22.  In every reachable engine state with at least two rows and
    columns and [max_iter >= 0], and every reachable palette state, the
    grid a [generate] call returns is accepted by [apply_colors]: it
    raises nothing and returns [height] rows of [width] colours, each
    channel in [[0, 255]]. *)
Theorem generate_then_apply_colors (e e1 : MandelbrotEngine) (g : grid)
    (p : ColorPalette) :
  reachable e -> palette_reachable p ->
  (2 <= width e)%Z -> (2 <= height e)%Z -> (0 <= max_iter e)%Z ->
  generate e = (Ok g, e1) ->
  exists img p',
    apply_colors g p = (Ok img, p') /\
    length img = Z.to_nat (height e) /\
    Forall (fun row => length row = Z.to_nat (width e) /\
                       Forall channels_ok row) img.
Proof.
  intros Hreach Hpal Hw Hh Hm Hgen.
  destruct (reachable_invariants e Hreach) as (Hv & _ & _ & _).
  destruct Hv as (Hz & _ & Hmin & Hmax).
  pose proof (generate_returns_render e e1 g Hreach Hgen) as Hr.
  destruct (render_Ok e g Hr)
    as (x_min & x_max & y_min & y_max & a & _ & Had & Hg).
  rewrite (adaptive_iterations_nonneg e (zoom e) Hmin Hmax) in Had by lra.
  inversion Had. subst a.
  pose proof (adaptive_iterations_spec_range (zoom e)) as Hrange.
  destruct (mandelbrot_shape _ _ _ _ _ _ _ g Hg) as [Hlen Hrows].
  assert (Hvals : forall v, In v (concat g) -> (0 <= v)%Z).
  { intros v Hin.
    refine (proj1 (grid_values _ _ _ _ _ _ _ g v _ Hg Hin)). lia. }
  assert (Hne : concat g <> []).
  { pose proof (mandelbrot_pixel _ _ _ _ _ _ _ g 0 0 Hg) as Hc.
    specialize (Hc ltac:(lia) ltac:(lia)).
    unfold cell in Hc. change (Z.to_nat 0) with 0%nat in Hc.
    destruct (nth_error g 0) as [row|] eqn:Hrow; [|discriminate].
    intros Hnil.
    match type of Hc with
    | _ = Some ?v => assert (Hin : In v (concat g))
    end.
    { apply in_concat. exists row. split.
      - apply nth_error_In with (n := 0%nat). exact Hrow.
      - apply nth_error_In with (n := 0%nat). exact Hc. }
    rewrite Hnil in Hin. contradiction. }
  destruct (apply_colors_spec g p (reachable_cache_sound p Hpal) Hne Hvals)
    as (f & p' & Happly & Hf).
  exists (map (map f) g), p'. split; [exact Happly|].
  split; [rewrite length_map; exact Hlen|].
  apply Forall_forall. intros irow Hirow.
  apply list_elem_of_In, in_map_iff in Hirow.
  destruct Hirow as (row & <- & Hrow).
  rewrite Forall_forall in Hrows. split.
  - rewrite length_map. apply Hrows, list_elem_of_In, Hrow.
  - apply Forall_forall. intros c Hc.
    apply list_elem_of_In, in_map_iff in Hc. destruct Hc as (v & <- & Hv).
    apply Hf. apply in_concat. exists row. auto.
Qed.

Lemma generate_then_apply_colors_witness :
  let e := mkEngine 4 3 (-0.5) 0 1 (IZR 4 / IZR 3) 100 50 2000
             None None 0 (4 * 3) in
  exists g e1 img p',
    generate e = (Ok g, e1) /\
    apply_colors g palette_init = (Ok img, p') /\
    length img = Z.to_nat (height e) /\
    Forall (fun row => length row = Z.to_nat (width e) /\
                       Forall channels_ok row) img.
Proof.
  intros e.
  destruct (fresh_engine 4 3) as (_ & Hreach & Hmin & Hmax & Hz & Ha & Hc);
    [lia | lia |].
  destruct (generate_computes e Hmin Hmax Hz Ha) as
    (x_min & x_max & y_min & y_max & g & _ & _ & _ & Hgen);
    [subst e; fields; lia | subst e; fields; lia | exact Hc |].
  destruct (generate_then_apply_colors e (rendered e g) g palette_init
              Hreach palette_reach_init) as (img & p' & Hres);
    [subst e; fields; lia | subst e; fields; lia | subst e; fields; lia
    | exact Hgen |].
  exists g, (rendered e g), img, p'. split; [exact Hgen|exact Hres].
Defined.

(** ** The adaptive cap *)

Lemma ln_pow_IZR (z : Z) (n : nat) :
  (0 < z)%Z -> INR n * ln (IZR z) = ln (IZR (z ^ Z.of_nat n)).
Proof.
  intros Hz. rewrite <- pow_IZR, ln_pow; [reflexivity|]. apply IZR_lt. exact Hz.
Qed.

Lemma ln_zoom_upper : 30 * ln 1000000000000001 < 451 * ln 10.
Proof.
  replace 30 with (INR 30) by (cbn; lra).
  replace 451 with (INR 451) by (rewrite INR_IZR_INZ; reflexivity).
  rewrite !ln_pow_IZR by lia.
  apply ln_increasing; [apply IZR_lt; reflexivity|].
  apply IZR_lt. vm_compute. reflexivity.
Qed.

Lemma ln_zoom_lower : 31 * ln 10 <= 30 * ln 11.
Proof.
  replace 30 with (INR 30) by (cbn; lra).
  replace 31 with (INR 31) by (cbn; lra).
  rewrite !ln_pow_IZR by lia.
  apply ln_le; [apply IZR_lt; reflexivity|].
  apply IZR_le. vm_compute. discriminate.
Qed.

Lemma Int_part_mono (x y : R) : x <= y -> (Int_part x <= Int_part y)%Z.
Proof.
  intros Hxy. apply Int_part_ge. destruct (base_Int_part x) as [Hx _]. lra.
Qed.

Lemma Int_part_below (x : R) (k : Z) : x < IZR k -> (Int_part x < k)%Z.
Proof.
  intros Hk. destruct (base_Int_part x) as [Hx _]. apply lt_IZR. lra.
Qed.

Lemma log10_term (z : R) :
  0 < z + 1 -> ln (z + 1) / ln 10 * 30 * ln 10 = 30 * ln (z + 1).
Proof. intros _. pose proof ln_10_pos. field. lra. Qed.

(** X23.  [adaptive_iterations] does not decrease when the zoom grows:
    for [0 <= z1 <= z2] both calls return, the first value is at most the
    second, and both lie in [[50, 2000]]. *)
Theorem adaptive_iterations_monotone (self : MandelbrotEngine) (z1 z2 : R) :
  min_iter self = 50%Z -> max_max_iter self = 2000%Z ->
  0 <= z1 -> z1 <= z2 ->
  exists a1 a2,
    adaptive_iterations self z1 = Ok a1 /\
    adaptive_iterations self z2 = Ok a2 /\
    (50 <= a1 <= a2)%Z /\ (a2 <= 2000)%Z.
Proof.
  intros Hmin Hmax H1 H12.
  rewrite (adaptive_iterations_nonneg self z1 Hmin Hmax H1).
  rewrite (adaptive_iterations_nonneg self z2 Hmin Hmax) by lra.
  do 2 eexists. split; [reflexivity|]. split; [reflexivity|].
  pose proof (adaptive_iterations_spec_range z1).
  pose proof (adaptive_iterations_spec_range z2).
  split; [|lia]. split; [lia|]. unfold adaptive_iterations_spec.
  assert (Hm : (Int_part (50 + ln (z1 + 1) / ln 10 * 30)
                <= Int_part (50 + ln (z2 + 1) / ln 10 * 30))%Z).
  { apply Int_part_mono. pose proof ln_10_pos as H10.
    assert (Hl : ln (z1 + 1) <= ln (z2 + 1)) by (apply ln_le; lra).
    assert (Hd : ln (z1 + 1) / ln 10 <= ln (z2 + 1) / ln 10).
    { apply Rmult_le_compat_r; [|exact Hl].
      left. apply Rinv_0_lt_compat, H10. }
    lra. }
  lia.
Qed.

Lemma adaptive_iterations_monotone_witness :
  let self := mkEngine 800 600 (-0.5) 0 1 (800 / 600) 100 50 2000
                None None 0 480000 in
  exists a1 a2,
    adaptive_iterations self 1 = Ok a1 /\
    adaptive_iterations self 1000000 = Ok a2 /\
    (50 <= a1 <= a2)%Z /\ (a2 <= 2000)%Z.
Proof.
  intros self.
  apply (adaptive_iterations_monotone self 1 1000000);
    [reflexivity | reflexivity | lra | lra].
Defined.

Lemma adaptive_in_view (z : R) :
  0.1 <= z <= 1e15 -> (51 <= adaptive_iterations_spec z <= 500)%Z.
Proof.
  intros Hz. unfold adaptive_iterations_spec.
  pose proof ln_10_pos as H10.
  pose proof (log10_term z ltac:(lra)) as He.
  set (L := ln (z + 1) / ln 10 * 30) in *.
  assert (Hlo : 1 <= L).
  { assert (Hl : ln (11 / 10) <= ln (z + 1)) by (apply ln_le; lra).
    unfold Rdiv in Hl at 1.
    rewrite ln_mult, ln_Rinv in Hl by first [lra | apply Rinv_0_lt_compat; lra].
    pose proof ln_zoom_lower. nra. }
  assert (Hhi : L < 451).
  { assert (Hl : ln (z + 1) <= ln 1000000000000001) by (apply ln_le; lra).
    pose proof ln_zoom_upper. nra. }
  assert (H51 : (51 <= Int_part (50 + L))%Z) by (apply Int_part_ge; lra).
  assert (H500 : (Int_part (50 + L) < 501)%Z) by (apply Int_part_below; lra).
  lia.
Qed.

(** X24.  In every reachable state [adaptive_iterations(zoom)] returns a
    value between 51 and 500, so [generate] never computes with more
    than 500 iterations, whatever [max_iter] is. *)
Theorem adaptive_cap_in_view (e : MandelbrotEngine) :
  reachable e ->
  exists a, adaptive_iterations e (zoom e) = Ok a /\
            (51 <= a <= 500)%Z /\ (Z.min (max_iter e) a <= 500)%Z.
Proof.
  intros Hreach.
  destruct (reachable_invariants e Hreach) as ((Hz & _ & Hmin & Hmax) & _).
  rewrite (adaptive_iterations_nonneg e (zoom e) Hmin Hmax) by lra.
  eexists. split; [reflexivity|].
  pose proof (adaptive_in_view (zoom e) Hz). lia.
Qed.

Lemma adaptive_cap_in_view_witness :
  let e := snd (zoom_at_point 400 300 1e20
                  (mkEngine 800 600 (-0.5) 0 1 (IZR 800 / IZR 600) 100 50
                     2000 None None 0 (800 * 600))) in
  exists a, adaptive_iterations e (zoom e) = Ok a /\
            (51 <= a <= 500)%Z /\ (Z.min (max_iter e) a <= 500)%Z.
Proof.
  intros e. apply adaptive_cap_in_view.
  apply (reach_run (ZoomAtPoint 400 300 1e20)).
  apply (reach_init 800 600). apply engine_init_Ok. lia.
Defined.

(** ** Raising the cap above the adaptive one *)

Lemma render_beyond_cap (e : MandelbrotEngine) (m : Z) (a : Z) :
  adaptive_iterations e (zoom e) = Ok a ->
  (a <= max_iter e)%Z -> (a <= m)%Z ->
  render (set_cache None None (set_max_iter m e)) = render e.
Proof.
  intros Had Hle Hm. unfold render. unfold get_bounds, adaptive_iterations in *.
  fields. destruct (fdiv 3 (zoom e)) as [vw|x]; [|reflexivity]. cbn.
  destruct (fdiv vw (aspect_ratio e)) as [vh|x]; [|reflexivity]. cbn.
  destruct (np_log10 (zoom e + 1)) as [l|x]; [|discriminate]. cbn in *.
  inversion Had as [Ha]. rewrite Ha.
  rewrite !Z.min_r by lia. reflexivity.
Qed.

(** X25.  Once [max_iter] is at least [adaptive_iterations(zoom)], a
    further [increase_iterations] by a step that is not negative clears
    the cache but cannot change the picture: the next [generate] computes
    again and returns the same grid. *)
Theorem increase_iterations_same_grid (e e1 : MandelbrotEngine) (g : grid)
    (f a : Z) :
  reachable e -> (0 <= f)%Z ->
  adaptive_iterations e (zoom e) = Ok a -> (a <= max_iter e)%Z ->
  generate e = (Ok g, e1) ->
  exists e3,
    generate (snd (increase_iterations f e1)) = (Ok g, e3) /\
    render_count e3 = (render_count e1 + 1)%Z.
Proof.
  intros Hreach Hf Had Hle Hgen.
  set (e2 := snd (increase_iterations f e1)).
  exists (rendered e2 g).
  destruct (reachable_invariants e Hreach) as ((_ & _ & Hmin & Hmax) & _).
  pose proof (generate_returns_render e e1 g Hreach Hgen) as Hr.
  assert (Ha2000 : (a <= 2000)%Z).
  { unfold adaptive_iterations in Had.
    destruct (np_log10 (zoom e + 1)) as [l|x]; [|discriminate]. cbn in Had.
    inversion Had. rewrite Hmax. lia. }
  assert (He2 : e2 = set_cache None None
                       (set_max_iter
                          (Z.min (max_iter e1 + f) (max_max_iter e1)) e1))
    by reflexivity.
  assert (Hr2 : render e2 = Ok g).
  { destruct (generate_state e) as [Hs | (r & Hr' & Hs)];
      rewrite Hgen in Hs; cbn [snd] in Hs; subst e1.
    - rewrite He2, (render_beyond_cap e _ a Had Hle); [exact Hr|].
      rewrite Hmax. lia.
    - rewrite He2.
      rewrite (render_beyond_cap (rendered e r) _ a);
        [ rewrite (render_ext e (rendered e r)) by reflexivity; exact Hr
        | exact Had
        | exact Hle
        | unfold rendered; fields; rewrite Hmax; lia ]. }
  assert (Hmiss : cache_hit e2 = None).
  { rewrite He2. unfold cache_hit. fields.
    destruct (decide _) as [Heq|_]; [discriminate|reflexivity]. }
  rewrite (generate_render e2 Hmiss), Hr2. split; [reflexivity|].
  unfold rendered. fields. rewrite He2. fields. reflexivity.
Qed.

Lemma increase_iterations_same_grid_witness :
  let e := mkEngine 4 3 (-0.5) 0 1 (IZR 4 / IZR 3) 100 50 2000
             None None 0 (4 * 3) in
  exists g e1,
    generate e = (Ok g, e1) /\
    exists e3,
      generate (snd (increase_iterations 50 e1)) = (Ok g, e3) /\
      render_count e3 = (render_count e1 + 1)%Z.
Proof.
  intros e.
  destruct (fresh_engine 4 3) as (_ & Hreach & Hmin & Hmax & Hz & Ha & Hc);
    [lia | lia |].
  destruct (generate_computes e Hmin Hmax Hz Ha) as
    (x_min & x_max & y_min & y_max & g & _ & _ & _ & Hgen);
    [subst e; fields; lia | subst e; fields; lia | exact Hc |].
  exists g, (rendered e g). split; [exact Hgen|].
  apply (increase_iterations_same_grid e (rendered e g) g 50 59 Hreach);
    [lia | apply adaptive_iterations_at_1; assumption
    | subst e; fields; lia | exact Hgen].
Defined.
